(** * Telegram forwarder: forwarding decision and enrichment pipeline

    A shallow embedding of the Python package [src/forwarder] (modules
    [utils], [rules], [entities], [processors], [link_manager] and
    [forwarding]) together with the properties its specification states.

    Python dictionaries are [gmap]s, the set of chats that reject native
    forwarding is a [gset], text is [string] (UTF-8 bytes), integers are [Z].
    The Telegram client is an oracle indexed by a logical clock, and the
    coroutines that talk to it run in a small state-and-exception monad. *)

From Stdlib Require Import Ascii String.
From stdpp Require Import gmap strings list pretty.

Open Scope string_scope.
Open Scope list_scope.

(** ** Python values *)

(** [Union[int, str]]: a chat identifier as the transport or a rule file
    hands it over. *)
Inductive ChatId :=
  | IntId (n : Z)
  | StrId (s : string).

#[global] Instance ChatId_eq_dec : EqDecision ChatId.
Proof. solve_decision. Defined.

#[global] Instance ChatId_countable : Countable ChatId.
Proof.
  refine (inj_countable'
    (λ c, match c with IntId n => inl n | StrId s => inr s end)
    (λ x, match x with inl n => IntId n | inr s => StrId s end) _).
  by intros [].
Defined.

(** [str(chat_id)] *)
Definition py_str (c : ChatId) : string :=
  match c with
  | IntId n => pretty n
  | StrId s => s
  end.

(** [s.startswith(p)] *)
Definition startswith (p s : string) : bool := String.prefix p s.

(** [s[n:]] *)
Fixpoint slice_from (n : nat) (s : string) : string :=
  match n, s with
  | O, _ => s
  | S n', String _ s' => slice_from n' s'
  | S _, EmptyString => EmptyString
  end.

(** [s.lstrip(c)] for a one-character strip set *)
Fixpoint lstrip (c : Ascii.ascii) (s : string) : string :=
  match s with
  | String a s' => if Ascii.eqb a c then lstrip c s' else s
  | EmptyString => EmptyString
  end.

(** Truthiness of a Python [str]: non-empty. *)
Definition truthy_str (s : string) : bool :=
  match s with
  | EmptyString => false
  | String _ _ => true
  end.

(** ** utils.py *)

Definition normalize_chat_id (chat_id : ChatId) : list string :=
  let str_chat_id := py_str chat_id in
  if startswith "-100" str_chat_id then
    [ str_chat_id;
      slice_from 4 str_chat_id;
      "-" +:+ slice_from 4 str_chat_id ]
  else
    [ str_chat_id;
      "-100" +:+ lstrip "-"%char str_chat_id ].

(** ** rules.py *)

(** One entry of a target list in the rule file.  [tgt_user_ids = None] is
    a target without the ["user_ids"] key (or with [null]). *)
Record Target := mkTarget {
  tgt_chat_id : string;
  tgt_topic_id : option Z;
  tgt_user_ids : option (list Z)
}.

(** One element of the decision [should_forward] returns. *)
Record Forward := mkForward {
  to_chat : string;
  to_topic : option Z;
  include_source : bool
}.

#[global] Instance Forward_eq_dec : EqDecision Forward.
Proof. solve_decision. Defined.

Abbreviation RuleEntry := (gmap string (list Target)).
Abbreviation Rules := (gmap string (gmap string (list Target))).

(** The [for potential_id in potential_ids: ... break] loop. *)
Fixpoint find_matching_rules (rules : Rules) (potential_ids : list string)
  : option RuleEntry :=
  match potential_ids with
  | [] => None
  | potential_id :: rest =>
      match rules !! potential_id with
      | Some matching_rules => Some matching_rules
      | None => find_matching_rules rules rest
      end
  end.

(** The guard in front of [continue]:
    [user_ids and user_id is not None and user_id not in user_ids]. *)
Definition skips (user_id : option Z) (target : Target) : bool :=
  let user_ids := default [] (tgt_user_ids target) in
  match user_ids, user_id with
  | [], _ => false
  | _ :: _, None => false
  | _ :: _, Some u => negb (bool_decide (u ∈ user_ids))
  end.

Definition forward_of (target : Target) : Forward :=
  {| to_chat := tgt_chat_id target;
     to_topic := tgt_topic_id target;
     include_source := true |}.

(** One [for target in ...] loop: [result.append] unless skipped. *)
Definition collect_targets (user_id : option Z) (targets : list Target)
    (result : list Forward) : list Forward :=
  fold_left
    (λ result target,
       if skips user_id target then result else result ++ [forward_of target])
    targets result.

Definition should_forward (rules : Rules) (chat_id : ChatId)
    (topic_id : option Z) (user_id : option Z) : list Forward :=
  let potential_ids := normalize_chat_id chat_id in
  match find_matching_rules rules potential_ids with
  | None => []
  | Some matching_rules =>
      let result := [] in
      let result :=
        match matching_rules !! "*" with
        | Some targets => collect_targets user_id targets result
        | None => result
        end in
      let result :=
        match topic_id with
        | Some t =>
            let str_topic_id := pretty t in
            match matching_rules !! str_topic_id with
            | Some targets => collect_targets user_id targets result
            | None => result
            end
        | None => result
        end in
      result
  end.

(** ** Telethon objects *)

(** An attribute that [hasattr] may find missing; [Present None] is an
    attribute holding [None]. *)
Inductive Attr (A : Type) :=
  | Absent
  | Present (v : option A).
Arguments Absent {A}.
Arguments Present {A} v.

Definition hasattr {A} (a : Attr A) : bool :=
  match a with
  | Absent => false
  | Present _ => true
  end.

(** [getattr(obj, name, None)] *)
Definition getattr {A} (a : Attr A) : option A :=
  match a with
  | Absent => None
  | Present v => v
  end.

(** Truthiness of an optional text: neither [None] nor empty. *)
Definition truthy_text (o : option string) : bool :=
  match o with
  | Some s => truthy_str s
  | None => false
  end.

(** Truthiness of an optional integer: neither [None] nor [0]. *)
Definition truthy_int (o : option Z) : bool :=
  match o with
  | Some n => negb (n =? 0)%Z
  | None => false
  end.

(** What [client.get_entity] hands back.  [ent_title = None] is an entity
    without a [title] attribute (a user). *)
Record Entity := mkEntity {
  ent_id : Z;
  ent_title : option string;
  ent_is_channel : bool;   (* isinstance(entity, Channel) *)
  ent_megagroup : bool;    (* getattr(entity, 'megagroup', False) *)
  ent_forum : bool;        (* getattr(entity, 'forum', False) *)
  ent_noforwards : bool    (* getattr(entity, 'noforwards', False) *)
}.

(** A media object, known by the name of its class. *)
Record Media := mkMedia {
  media_class : string
}.

Record FormattingEntity := mkFormattingEntity {
  fe_kind : string;
  fe_offset : Z;
  fe_length : Z
}.

(** The reply header of a message. *)
Record ReplyTo := mkReplyTo {
  forum_topic : bool;          (* hasattr(.., 'forum_topic') and .forum_topic *)
  top_msg_id : Attr Z;
  reply_to_top_id : Attr Z;
  reply_to_msg_id : Attr Z
}.

Record Sender := mkSender {
  first_name : Attr string;
  last_name : Attr string;
  username : Attr string;
  sender_id : Attr Z
}.

Record Message := mkMessage {
  msg_id : Z;
  msg_message : Attr string;
  msg_text : Attr string;
  msg_raw_text : Attr string;
  msg_extracted_text : Attr string;        (* _extracted_text *)
  msg_to_dict_message : option (option string);
    (* to_dict()['message'] when the object has to_dict and the key *)
  msg_title : option string;               (* getattr(.., 'title', None) *)
  msg_media : option Media;
  msg_entities : option (list FormattingEntity);
  msg_topic_id : Attr Z;
  msg_topic : Attr Z;
  msg_reply_to : option ReplyTo;
  msg_post : bool
}.

Definition set_extracted_text (m : Message) (text : string) : Message :=
  {| msg_id := msg_id m; msg_message := msg_message m; msg_text := msg_text m;
     msg_raw_text := msg_raw_text m; msg_extracted_text := Present (Some text);
     msg_to_dict_message := msg_to_dict_message m; msg_title := msg_title m;
     msg_media := msg_media m; msg_entities := msg_entities m;
     msg_topic_id := msg_topic_id m; msg_topic := msg_topic m;
     msg_reply_to := msg_reply_to m; msg_post := msg_post m |}.

Definition set_message_text (m : Message) (text : option string) : Message :=
  {| msg_id := msg_id m; msg_message := Present text; msg_text := msg_text m;
     msg_raw_text := msg_raw_text m; msg_extracted_text := msg_extracted_text m;
     msg_to_dict_message := msg_to_dict_message m; msg_title := msg_title m;
     msg_media := msg_media m; msg_entities := msg_entities m;
     msg_topic_id := msg_topic_id m; msg_topic := msg_topic m;
     msg_reply_to := msg_reply_to m; msg_post := msg_post m |}.

Record Event := mkEvent {
  ev_chat_id : ChatId;
  ev_message : Message
}.

(** ** Exceptions and the client *)

Inductive exn :=
  | ForbiddenError
  | ChatAdminRequiredError
  | ChannelPrivateError
  | ValueError
  | KeyError
  | AttributeError
  | OtherError (name : string).

(** [except (ForbiddenError, ChatAdminRequiredError, ChannelPrivateError)] *)
Definition is_forward_restriction (e : exn) : bool :=
  match e with
  | ForbiddenError | ChatAdminRequiredError | ChannelPrivateError => true
  | _ => false
  end.

Inductive result (A : Type) :=
  | Ok (a : A)
  | Raise (e : exn).
Arguments Ok {A} a.
Arguments Raise {A} e.

(** The requests this program sends to the client, with their arguments. *)
Inductive Call :=
  | GetEntity (who : ChatId)
  | GetSender (m : Message)
  | GetFullChannel (channel : option Entity)
  | GetChannelMessages (channel : option Entity) (ids : list Z)
  | GetDiscussionMessage (peer : option Entity) (id : Z)
  | GetMessages (chat : Entity + ChatId) (id : option Z) (reply_to : option Z)
  | ForwardMessages (to : Z) (m : Message)
  | EditMessage (to : Z) (m : Message) (reply_to : Z)
  | SendMessage (to : string) (text : string) (reply_to : option Z)
      (formatting_entities : option (list FormattingEntity))
      (file : option Media).

(** The client's answers over one run of the process.  Every request takes
    one tick of a logical clock, and the answer to the request made at
    tick [t] is read at [t]: an entity or an exception, a message or
    nothing, and so on.  An arbitrary [Client] is an arbitrary behaviour
    of the transport. *)
Record Client := mkClient {
  get_entity_reply : nat → result Entity;
  get_sender_reply : nat → result (option Sender);
  full_channel_reply : nat → result (option (list (Z * string)));
  channel_messages_reply : nat → result (list Message);
  discussion_reply : nat → result (option (list Message));
  get_messages_reply : nat → result (option Message);
  forward_reply : nat → result (option Message);
  edit_reply : nat → result unit;
  send_reply : nat → result unit
}.

(** ** The state of the process and its monad *)

Record State := mkState {
  chat_entities : gmap ChatId Entity;
  chat_topics : gmap ChatId (gmap Z string);
  no_forward_chats : gset ChatId;
  resolved_message_links : gmap string Message;
  clock : nat;
  calls : list Call        (* requests made so far, oldest first *)
}.

Definition initial_state : State :=
  {| chat_entities := ∅; chat_topics := ∅; no_forward_chats := ∅;
     resolved_message_links := ∅; clock := 0; calls := [] |}.

Definition M (A : Type) : Type := State → result A * State.

Definition ret {A} (a : A) : M A := λ st, (Ok a, st).

Definition bind {A B} (m : M A) (k : A → M B) : M B :=
  λ st, match m st with
        | (Ok a, st') => k a st'
        | (Raise e, st') => (Raise e, st')
        end.

Definition raise {A} (e : exn) : M A := λ st, (Raise e, st).

(** [try: m  except Exception as e: handler e] *)
Definition try_except {A} (m : M A) (handler : exn → M A) : M A :=
  λ st, match m st with
        | (Ok a, st') => (Ok a, st')
        | (Raise e, st') => handler e st'
        end.

Definition get_state : M State := λ st, (Ok st, st).

Definition modify (f : State → State) : M unit := λ st, (Ok tt, f st).

Declare Scope py_scope.
Delimit Scope py_scope with py.
Bind Scope py_scope with M.
Notation "'let!' x ':=' m 'in' k" := (bind m (λ x, k))
  (at level 10, x name, m at level 100, k at level 200,
   format "'[v' 'let!'  x  ':='  m  'in' '/' k ']'") : py_scope.
Notation "'do!' m 'in' k" := (bind m (λ _, k))
  (at level 10, m at level 100, k at level 200,
   format "'[v' 'do!'  m  'in' '/' k ']'") : py_scope.
Open Scope py_scope.

(** One request: log it, read the answer at the current tick, advance. *)
Definition log_call (c : Call) (st : State) : State :=
  {| chat_entities := chat_entities st; chat_topics := chat_topics st;
     no_forward_chats := no_forward_chats st;
     resolved_message_links := resolved_message_links st;
     clock := S (clock st); calls := calls st ++ [c] |}.

Definition request {A} (c : Call) (reply : nat → result A) : M A :=
  λ st, (reply (clock st), log_call c st).

Definition set_chat_entities (f : gmap ChatId Entity → gmap ChatId Entity)
    (st : State) : State :=
  {| chat_entities := f (chat_entities st); chat_topics := chat_topics st;
     no_forward_chats := no_forward_chats st;
     resolved_message_links := resolved_message_links st;
     clock := clock st; calls := calls st |}.

Definition set_chat_topics
    (f : gmap ChatId (gmap Z string) → gmap ChatId (gmap Z string))
    (st : State) : State :=
  {| chat_entities := chat_entities st; chat_topics := f (chat_topics st);
     no_forward_chats := no_forward_chats st;
     resolved_message_links := resolved_message_links st;
     clock := clock st; calls := calls st |}.

Definition set_no_forward_chats (f : gset ChatId → gset ChatId)
    (st : State) : State :=
  {| chat_entities := chat_entities st; chat_topics := chat_topics st;
     no_forward_chats := f (no_forward_chats st);
     resolved_message_links := resolved_message_links st;
     clock := clock st; calls := calls st |}.

Definition set_resolved_message_links
    (f : gmap string Message → gmap string Message) (st : State) : State :=
  {| chat_entities := chat_entities st; chat_topics := chat_topics st;
     no_forward_chats := no_forward_chats st;
     resolved_message_links := f (resolved_message_links st);
     clock := clock st; calls := calls st |}.

(** [for x in xs: body x], stopping at the first exception. *)
Fixpoint for_each {A} (xs : list A) (body : A → M unit) : M unit :=
  match xs with
  | [] => ret tt
  | x :: rest => do! body x in for_each rest body
  end.

(** ** Python's [int()] on text (ASCII digits) *)

Definition is_digit (a : ascii) : bool :=
  (48 <=? nat_of_ascii a)%nat && (nat_of_ascii a <=? 57)%nat.

Definition digit_value (a : ascii) : Z := Z.of_nat (nat_of_ascii a - 48).

Definition is_space (a : ascii) : bool :=
  let n := nat_of_ascii a in
  (n =? 32)%nat || ((9 <=? n)%nat && (n <=? 13)%nat) ||
  ((28 <=? n)%nat && (n <=? 31)%nat).

Fixpoint lstrip_space (s : string) : string :=
  match s with
  | String a s' => if is_space a then lstrip_space s' else s
  | EmptyString => EmptyString
  end.

Definition strip_space (s : string) : string :=
  String.rev (lstrip_space (String.rev (lstrip_space s))).

(** The digits after a first digit; an underscore may stand between two
    digits. *)
Fixpoint digits_after (s : string) (acc : Z) : option Z :=
  match s with
  | EmptyString => Some acc
  | String a s' =>
      if is_digit a then digits_after s' (10 * acc + digit_value a)%Z
      else if Ascii.eqb a "_"%char then
        match s' with
        | String b s'' =>
            if is_digit b then digits_after s'' (10 * acc + digit_value b)%Z
            else None
        | EmptyString => None
        end
      else None
  end.

Definition unsigned_of_string (s : string) : option Z :=
  match s with
  | String a s' => if is_digit a then digits_after s' (digit_value a) else None
  | EmptyString => None
  end.

(** [int(s)] for a text of ASCII characters; [None] is [ValueError]. *)
Definition int_of_string (s : string) : option Z :=
  match strip_space s with
  | String "-" s' => Z.opp <$> unsigned_of_string s'
  | String "+" s' => unsigned_of_string s'
  | s' => unsigned_of_string s'
  end.

(** [s.isdigit()] on ASCII text *)
Fixpoint all_digits (s : string) : bool :=
  match s with
  | EmptyString => true
  | String a s' => is_digit a && all_digits s'
  end.

Definition isdigit (s : string) : bool := truthy_str s && all_digits s.

(** [int(chat_id)] *)
Definition py_int (chat_id : ChatId) : M Z :=
  match chat_id with
  | IntId n => ret n
  | StrId s =>
      match int_of_string s with
      | Some n => ret n
      | None => raise ValueError
      end
  end.

(** ** entities.py *)

Section EntityManager.
Context (client : Client).

Definition get_entity (chat_id : ChatId) : M (option Entity) :=
  let! st := get_state in
  match chat_entities st !! chat_id with
  | Some entity => ret (Some entity)
  | None =>
      try_except
        (let! entity :=
           if startswith "-100" (py_str chat_id) then
             let! n := py_int chat_id in
             request (GetEntity (IntId n)) (get_entity_reply client)
           else if startswith "@" (py_str chat_id) then
             request (GetEntity chat_id) (get_entity_reply client)
           else
             let! n := py_int chat_id in
             request (GetEntity (IntId n)) (get_entity_reply client) in
         do! modify (set_chat_entities <[chat_id := entity]>) in
         ret (Some entity))
        (λ _, ret None)
  end.

Definition get_chat_title (chat_id : ChatId) : M string :=
  let! entity := get_entity chat_id in
  match entity with
  | Some entity => ret (default ("Chat " +:+ py_str chat_id) (ent_title entity))
  | None => ret ("Chat " +:+ py_str chat_id)
  end.

(** [self.chat_topics[chat_id][topic_id] = name] *)
Definition cache_topic (chat_id : ChatId) (topic_id : Z) (name : string)
  : M unit :=
  let! st := get_state in
  match chat_topics st !! chat_id with
  | Some topics =>
      modify (set_chat_topics <[chat_id := <[topic_id := name]> topics]>)
  | None => raise KeyError
  end.

(** [self.chat_topics[chat_id][topic_id]] when both keys are there *)
Definition cached_topic (st : State) (chat_id : ChatId) (topic_id : Z)
  : option string :=
  match chat_topics st !! chat_id with
  | Some topics => topics !! topic_id
  | None => None
  end.

(** The first message of a list whose [title] is truthy. *)
Fixpoint first_titled (messages : list Message) : option string :=
  match messages with
  | [] => None
  | msg :: rest =>
      if truthy_text (msg_title msg) then msg_title msg
      else first_titled rest
  end.

(** The three lookups of [get_topic_name]; [Some name] is a [return]
    from inside the [try], [None] falls through to the next one. *)
Definition topic_from_full_channel (chat_id : ChatId) (topic_id : Z)
    (entity : option Entity) : M (option string) :=
  try_except
    (match entity with
     | Some e =>
         if ent_is_channel e && ent_megagroup e then
           let! forum_topics :=
             request (GetFullChannel entity) (full_channel_reply client) in
           match forum_topics with
           | Some topics =>
               do! for_each topics
                     (λ topic, cache_topic chat_id topic.1 topic.2) in
               let! st := get_state in
               ret (cached_topic st chat_id topic_id)
           | None => ret None
           end
         else ret None
     | None => ret None
     end)
    (λ _, ret None).

Definition topic_from_starter (chat_id : ChatId) (topic_id : Z)
    (entity : option Entity) : M (option string) :=
  try_except
    (let! messages :=
       request (GetChannelMessages entity [topic_id])
               (channel_messages_reply client) in
     match messages with
     | message :: _ =>
         match msg_title message with
         | Some title =>
             if truthy_str title then
               do! cache_topic chat_id topic_id title in
               ret (Some title)
             else ret None
         | None => ret None
         end
     | [] => ret None
     end)
    (λ _, ret None).

Definition topic_from_discussion (chat_id : ChatId) (topic_id : Z)
    (entity : option Entity) : M (option string) :=
  try_except
    (let! result :=
       request (GetDiscussionMessage entity topic_id)
               (discussion_reply client) in
     match result with
     | Some messages =>
         match first_titled messages with
         | Some title =>
             do! cache_topic chat_id topic_id title in
             ret (Some title)
         | None => ret None
         end
     | None => ret None
     end)
    (λ _, ret None).

Definition get_topic_name (chat_id : ChatId) (topic_id : option Z)
  : M (option string) :=
  match topic_id with
  | None => ret None
  | Some topic_id =>
      if (topic_id =? 0)%Z then ret None else
      let! st := get_state in
      match cached_topic st chat_id topic_id with
      | Some name => ret (Some name)
      | None =>
          do! (match chat_topics st !! chat_id with
               | Some _ => ret tt
               | None => modify (set_chat_topics <[chat_id := ∅]>)
               end) in
          let! found :=
            try_except
              (let! entity := get_entity chat_id in
               let! first := topic_from_full_channel chat_id topic_id entity in
               match first with
               | Some name => ret (Some name)
               | None =>
                   let! second := topic_from_starter chat_id topic_id entity in
                   match second with
                   | Some name => ret (Some name)
                   | None => topic_from_discussion chat_id topic_id entity
                   end
               end)
              (λ _, ret None) in
          match found with
          | Some name => ret (Some name)
          | None =>
              let fallback_name := "Topic " +:+ pretty topic_id in
              do! cache_topic chat_id topic_id fallback_name in
              ret (Some fallback_name)
          end
      end
  end.

Definition can_forward_from_chat (chat_id : ChatId) : M bool :=
  let! st := get_state in
  if bool_decide (chat_id ∈ no_forward_chats st) then ret false else
  let! entity := get_entity chat_id in
  match entity with
  | None =>
      do! modify (set_no_forward_chats (λ s, s ∪ {[chat_id]})) in
      ret false
  | Some entity =>
      if ent_is_channel entity && ent_noforwards entity then
        do! modify (set_no_forward_chats (λ s, s ∪ {[chat_id]})) in
        ret false
      else ret true
  end.

End EntityManager.

(** ** utils.py, continued *)

Definition nl : string := String (ascii_of_nat 10) EmptyString.

(** [s.replace(old, new)]: occurrences are replaced from the left and do
    not overlap; [skip] counts the characters of a replaced occurrence
    still to be passed over. *)
Fixpoint replace_from (old new : string) (skip : nat) (s : string) : string :=
  match s with
  | EmptyString =>
      match skip, old with
      | O, EmptyString => new
      | _, _ => EmptyString
      end
  | String a s' =>
      match skip with
      | S k => replace_from old new k s'
      | O =>
          if startswith old s then
            match old with
            | EmptyString => new +:+ String a (replace_from old new 0 s')
            | String _ old' =>
                new +:+ replace_from old new (String.length old') s'
            end
          else String a (replace_from old new 0 s')
      end
  end.

Definition str_replace (old new s : string) : string :=
  replace_from old new 0 s.

Definition extract_message_text (message : Message) : string :=
  if truthy_text (getattr (msg_message message)) then
    default "" (getattr (msg_message message))
  else if truthy_text (getattr (msg_text message)) then
    default "" (getattr (msg_text message))
  else if truthy_text (getattr (msg_raw_text message)) then
    default "" (getattr (msg_raw_text message))
  else "".

Definition get_media_type_name (media : option Media) : option string :=
  match media with
  | None => None
  | Some m => Some (str_replace "MessageMedia" "" (media_class m))
  end.

(** [isinstance(media, MessageMediaWebPage)] *)
Definition is_webpage (m : Media) : bool :=
  String.eqb (media_class m) "MessageMediaWebPage".

(** How an f-string renders an optional value. *)
Definition fmt_opt_str (o : option string) : string := default "None" o.
Definition fmt_opt_int (o : option Z) : string :=
  match o with
  | Some n => pretty n
  | None => "None"
  end.

(** ** processors.py *)

(** The dictionary [format_message_for_forwarding] returns. *)
Record Content := mkContent {
  content_text : string;
  content_media : option Media;
  content_entities : option (list FormattingEntity)
}.

(** The sender's display name, from whatever [get_sender] returned. *)
Definition sender_display (sender : option Sender) : string :=
  let attr (f : Sender → Attr string) : option string :=
    match sender with
    | Some s => getattr (f s)
    | None => None
    end in
  let sender_name := default "" (attr first_name) in
  let sender_name :=
    if truthy_text (attr last_name)
    then sender_name +:+ " " +:+ fmt_opt_str (attr last_name)
    else sender_name in
  let sender_name :=
    if truthy_text (attr username)
    then sender_name +:+ " (@" +:+ fmt_opt_str (attr username) +:+ ")"
    else sender_name in
  if truthy_str sender_name then sender_name
  else
    match sender with
    | Some s =>
        match sender_id s with
        | Present v => "User " +:+ fmt_opt_int v
        | Absent => "Unknown User"
        end
    | None => "Unknown User"
    end.

(** The text of a message as [format_message_for_forwarding] finds it,
    before the placeholders. *)
Definition found_text (message : Message) : option string :=
  let message_text :=
    if truthy_text (getattr (msg_extracted_text message)) then
      getattr (msg_extracted_text message)
    else if truthy_text (getattr (msg_message message)) then
      getattr (msg_message message)
    else if truthy_text (getattr (msg_text message)) then
      getattr (msg_text message)
    else if truthy_text (getattr (msg_raw_text message)) then
      getattr (msg_raw_text message)
    else Some "" in
  if truthy_text message_text then message_text
  else
    match msg_to_dict_message message with
    | Some from_dict => from_dict
    | None => message_text
    end.

Definition body_or_placeholder (message : Message) : string :=
  let message_text := found_text message in
  if truthy_text message_text then fmt_opt_str message_text
  else
    match msg_media message with
    | Some _ =>
        "[Message with " +:+
        fmt_opt_str (get_media_type_name (msg_media message)) +:+ "]"
    | None => "[Empty message]"
    end.

Definition reply_prefix : string := "⤴️ **In reply to:**" +:+ nl.

Definition link_prefix (linked_from : string) : string :=
  "🔗 **Linked message:** " +:+ linked_from +:+ nl.

(** The pure part of [extract_topic_id] below the forum test: the chain of
    [if]/[elif] on the message. *)
Definition topic_from_reply (reply_to : ReplyTo) (is_forum : bool) : option Z :=
  let topic_id :=
    if forum_topic reply_to then
      if hasattr (top_msg_id reply_to) then getattr (top_msg_id reply_to)
      else if hasattr (reply_to_top_id reply_to) then
        getattr (reply_to_top_id reply_to)
      else None
    else if hasattr (reply_to_top_id reply_to) then
      getattr (reply_to_top_id reply_to)
    else if hasattr (top_msg_id reply_to) then getattr (top_msg_id reply_to)
    else None in
  match topic_id with
  | Some _ => topic_id
  | None =>
      if hasattr (reply_to_msg_id reply_to) then
        let reply_msg_id := getattr (reply_to_msg_id reply_to) in
        if is_forum then reply_msg_id else None
      else None
  end.

Definition topic_of_message (message : Message) (is_forum : bool) : option Z :=
  if hasattr (msg_topic_id message) then getattr (msg_topic_id message)
  else if hasattr (msg_topic message) then getattr (msg_topic message)
  else
    match msg_reply_to message with
    | Some reply_to => topic_from_reply reply_to is_forum
    | None =>
        if is_forum && msg_post message then Some (msg_id message)
        else Some 1%Z
    end.

Definition is_genuine_reply (message : Message) (topic_id : option Z) : bool :=
  match msg_reply_to message with
  | None => false
  | Some reply_to =>
      if negb (hasattr (reply_to_msg_id reply_to)) then false
      else if forum_topic reply_to && truthy_int topic_id then
        negb (bool_decide (getattr (reply_to_msg_id reply_to) = topic_id))
      else true
  end.

Definition prepare_forwarding_content (message : Message) (source_info : string)
    (include_source : bool) (additional_contents : list Content)
  : string * option Media * list Media :=
  let message_text := extract_message_text message in
  let with_source (body : string) : string :=
    if include_source then source_info +:+ nl +:+ nl +:+ body else body in
  let text :=
    if truthy_str message_text then with_source message_text
    else
      match msg_media message with
      | Some _ =>
          with_source ("[Message with " +:+
                       fmt_opt_str (get_media_type_name (msg_media message)) +:+
                       "]")
      | None => with_source "[Empty message]"
      end in
  let text :=
    match additional_contents with
    | [] => text
    | _ :: _ =>
        text +:+ nl +:+ nl +:+
        String.concat (nl +:+ nl) (content_text <$> additional_contents)
    end in
  let sendable_media :=
    match msg_media message with
    | Some m => if is_webpage m then None else Some m
    | None => None
    end in
  let additional_media :=
    omap (λ content,
            match content_media content with
            | Some m => if is_webpage m then None else Some m
            | None => None
            end) additional_contents in
  (text, sendable_media, additional_media).

Section MessageProcessor.
Context (client : Client).

Definition format_message_for_forwarding (message : Message)
    (is_reply : bool) (linked_from : option string) : M Content :=
  let! sender_name :=
    try_except
      (let! sender := request (GetSender message) (get_sender_reply client) in
       ret (sender_display sender))
      (λ _, ret "Unknown User") in
  let prefix :=
    if is_reply then reply_prefix
    else if truthy_text linked_from then link_prefix (fmt_opt_str linked_from)
    else "" in
  let message_text := body_or_placeholder message in
  let formatted_text :=
    prefix +:+ "**" +:+ sender_name +:+ ":** " +:+ message_text in
  ret {| content_text := formatted_text;
         content_media := msg_media message;
         content_entities := msg_entities message |}.

Definition extract_topic_id (event : Event) : M (option Z) :=
  let message := ev_message event in
  let chat_id := ev_chat_id event in
  try_except
    (let! entity := request (GetEntity chat_id) (get_entity_reply client) in
     let is_forum := ent_forum entity in
     if negb is_forum then ret None
     else ret (topic_of_message message is_forum))
    (λ _, ret None).

Definition process_replied_message (message : Message) (chat_id : ChatId)
  : M (option Content) :=
  try_except
    (let! replied_msg_id :=
       match msg_reply_to message with
       | Some reply_to =>
           match reply_to_msg_id reply_to with
           | Present v => ret v
           | Absent => raise AttributeError
           end
       | None => raise AttributeError
       end in
     let! replied_msg :=
       request (GetMessages (inr chat_id) replied_msg_id None)
               (get_messages_reply client) in
     match replied_msg with
     | Some replied_msg =>
         let! formatted_reply :=
           format_message_for_forwarding replied_msg true None in
         ret (Some formatted_reply)
     | None => ret None
     end)
    (λ _, ret None).

End MessageProcessor.

(** ** link_manager.py *)

(** One record of [extract_message_links].  Of [link_chat_id] and
    [link_username] the scan sets one. *)
Record LinkData := mkLinkData {
  full_match : string;
  message_id : Z;
  link_chat_id : option string;
  link_username : option string;
  link_topic_id : option Z
}.

(** A message with text in one of its three text attributes. *)
Definition has_text (message : Message) : bool :=
  truthy_text (getattr (msg_message message)) ||
  truthy_text (getattr (msg_text message)) ||
  truthy_text (getattr (msg_raw_text message)).

Definition cache_key (link_data : LinkData) : string :=
  fmt_opt_str (match link_chat_id link_data with
               | Some c => Some c
               | None => link_username link_data
               end)
  +:+ "-" +:+ pretty (message_id link_data).

Section LinkManager.
Context (client : Client).

(** APPROACH 1: the plain [get_messages]. *)
Definition fetch_plain (chat : Entity) (msg_id : Z) : M (option Message) :=
  try_except
    (request (GetMessages (inl chat) (Some msg_id) None)
             (get_messages_reply client))
    (λ _, ret None).

(** APPROACH 2: [get_messages] within the topic. *)
Definition fetch_in_topic (chat : Entity) (msg_id : Z) (topic_id : option Z)
    (message : option Message) : M (option Message) :=
  let no_message_text :=
    match message with
    | Some m => negb (truthy_text (getattr (msg_message m)))
    | None => true
    end in
  if truthy_int topic_id && no_message_text then
    try_except
      (let! message_with_topic :=
         request (GetMessages (inl chat) (Some msg_id) topic_id)
                 (get_messages_reply client) in
       match message_with_topic with
       | Some m' => if has_text m' then ret (Some m') else ret message
       | None => ret message
       end)
      (λ _, ret message)
  else ret message.

(** APPROACH 3: the raw request. *)
Definition fetch_raw (chat : Entity) (msg_id : Z) (message : option Message)
  : M (option Message) :=
  let no_text :=
    match message with
    | Some m => negb (has_text m)
    | None => true
    end in
  if no_text then
    try_except
      (let! full_msg :=
         request (GetChannelMessages (Some chat) [msg_id])
                 (channel_messages_reply client) in
       match full_msg with
       | raw_message :: _ =>
           if truthy_text (getattr (msg_message raw_message)) then
             match message with
             | None => ret (Some raw_message)
             | Some m =>
                 if hasattr (msg_message m) then
                   ret (Some (set_message_text m
                                (getattr (msg_message raw_message))))
                 else ret message
             end
           else ret message
       | [] => ret message
       end)
      (λ _, ret message)
  else ret message.

Definition fetch_linked_message (link_data : LinkData) : M (option Message) :=
  let! st := get_state in
  match resolved_message_links st !! cache_key link_data with
  | Some cached => ret (Some cached)
  | None =>
      try_except
        (let! chat :=
           match link_chat_id link_data with
           | Some chat_id =>
               let chat_id :=
                 if negb (startswith "-100" chat_id) && isdigit chat_id
                 then "-100" +:+ chat_id else chat_id in
               get_entity client (StrId chat_id)
           | None =>
               match link_username link_data with
               | Some name => get_entity client (StrId name)
               | None => raise KeyError
               end
           end in
         match chat with
         | None => ret None
         | Some chat =>
             let topic_id := link_topic_id link_data in
             let msg_id := message_id link_data in
             let! message := fetch_plain chat msg_id in
             let! message := fetch_in_topic chat msg_id topic_id message in
             let! message := fetch_raw chat msg_id message in
             match message with
             | None => ret None
             | Some message =>
                 let message :=
                   set_extracted_text message (extract_message_text message) in
                 do! modify (set_resolved_message_links
                               <[cache_key link_data := message]>) in
                 ret (Some message)
             end
         end)
        (λ _, ret None)
  end.

End LinkManager.

(** ** forwarding.py *)

Section ForwardingManager.
Context (client : Client).

(** The direct forward of one target.  [true] is the [continue] after a
    forward that went through; [false] falls through to the text-based
    forwarding. *)
Definition forward_directly (chat_id : ChatId) (message : Message)
    (to_chat : string) (to_topic : option Z) : M bool :=
  try_except
    (let! to := py_int (StrId to_chat) in
     let! forwarded_msg :=
       request (ForwardMessages to message) (forward_reply client) in
     do! (match to_topic, forwarded_msg with
          | Some topic, Some first_msg =>
              if (topic =? 0)%Z then ret tt
              else
                try_except
                  (let! to := py_int (StrId to_chat) in
                   request (EditMessage to first_msg topic) (edit_reply client))
                  (λ _, ret tt)
          | _, _ => ret tt
          end) in
     ret true)
    (λ e,
       if is_forward_restriction e then
         do! modify (set_no_forward_chats (λ s, s ∪ {[chat_id]})) in
         ret false
       else ret false).

(** The text-based forwarding of one target. *)
Definition forward_as_text (chat_id : ChatId) (message : Message)
    (message_contents : list Content) (topic_id : option Z)
    (to_chat : string) (to_topic : option Z) (include_source : bool)
  : M unit :=
  let! chat_title := get_chat_title client chat_id in
  let source_info := "📨 Forwarded from: " +:+ chat_title in
  let! source_info :=
    if truthy_int topic_id then
      let! topic_name := get_topic_name client chat_id topic_id in
      if truthy_text topic_name
      then ret (source_info +:+ " | " +:+ fmt_opt_str topic_name)
      else ret source_info
    else ret source_info in
  let '(text, sendable_media, additional_media) :=
    prepare_forwarding_content message source_info include_source
                               message_contents in
  do! request (SendMessage to_chat text to_topic (msg_entities message)
                           sendable_media)
              (send_reply client) in
  for_each additional_media
    (λ media_item,
       try_except
         (request (SendMessage to_chat
                     "📎 Additional media from referenced message"
                     to_topic None (Some media_item))
                  (send_reply client))
         (λ _, ret tt)).

(** The body of the loop over the targets, inside its [try]. *)
Definition forward_to_target (chat_id : ChatId) (message : Message)
    (message_contents : list Content) (topic_id : option Z)
    (can_forward_directly : bool) (target : Forward) : M unit :=
  let to_chat := to_chat target in
  let to_topic := to_topic target in
  let include_source := include_source target in
  let! forwarded :=
    if can_forward_directly && bool_decide (message_contents = [])
    then forward_directly chat_id message to_chat to_topic
    else ret false in
  if forwarded then ret tt
  else forward_as_text chat_id message message_contents topic_id
                       to_chat to_topic include_source.

Definition forward_message (event : Event) (message_contents : list Content)
    (topic_id : option Z) (can_forward_directly : bool)
    (forwarding_info : list Forward) : M unit :=
  let message := ev_message event in
  let chat_id := ev_chat_id event in
  for_each forwarding_info
    (λ target,
       try_except
         (forward_to_target chat_id message message_contents topic_id
                            can_forward_directly target)
         (λ _, ret tt)).

End ForwardingManager.

(** ** handlers.py *)

Section MessageHandler.
Context (client : Client).
(** [LinkManager.extract_message_links], the regular-expression scan of a
    text for message links: a function of the text alone. *)
Context (extract_message_links : string → list LinkData).
Context (rules : Rules).

(** The loop over the links of [process_and_forward_message]. *)
Fixpoint linked_contents (message_links : list LinkData)
    (additional_content : list Content) : M (list Content) :=
  match message_links with
  | [] => ret additional_content
  | link_data :: rest =>
      let! additional_content :=
        try_except
          (let! linked_msg := fetch_linked_message client link_data in
           match linked_msg with
           | Some linked_msg =>
               let! formatted_link :=
                 format_message_for_forwarding client linked_msg false
                   (Some (full_match link_data)) in
               ret (additional_content ++ [formatted_link])
           | None => ret additional_content
           end)
          (λ _, ret additional_content) in
      linked_contents rest additional_content
  end.

Definition process_and_forward_message (event : Event)
    (forwarding_info : list Forward) (topic_id : option Z)
    (can_forward_directly : bool) : M unit :=
  let message := ev_message event in
  let chat_id := ev_chat_id event in
  let! additional_content :=
    if is_genuine_reply message topic_id then
      let! replied_content := process_replied_message client message chat_id in
      match replied_content with
      | Some content => ret [content]
      | None => ret []
      end
    else ret [] in
  let! message_links :=
    match msg_text message with
    | Present text =>
        if truthy_text text then ret (extract_message_links (fmt_opt_str text))
        else ret []
    | Absent => raise AttributeError
    end in
  let! additional_content := linked_contents message_links additional_content in
  forward_message client event additional_content topic_id
                  can_forward_directly forwarding_info.

(** The [try] that finds the sender id for the user filter. *)
Definition sender_id_of (message : Message) : M (option Z) :=
  try_except
    (let! sender := request (GetSender message) (get_sender_reply client) in
     match sender with
     | Some sender =>
         match sender_id sender with
         | Present v => ret v
         | Absent => raise AttributeError
         end
     | None => ret None
     end)
    (λ _, ret None).

Definition handle_new_message (event : Event) : M unit :=
  let chat_id := ev_chat_id event in
  let message := ev_message event in
  let message_text := extract_message_text message in
  let message := set_extracted_text message message_text in
  let event := {| ev_chat_id := chat_id; ev_message := message |} in
  let! sender_id := sender_id_of message in
  let! topic_id := extract_topic_id client event in
  let forwarding_info := should_forward rules chat_id topic_id sender_id in
  match forwarding_info with
  | _ :: _ =>
      let! can_forward := can_forward_from_chat client chat_id in
      process_and_forward_message event forwarding_info topic_id can_forward
  | [] => ret tt
  end.

End MessageHandler.

(** * Vocabulary of the specification *)

(** [n] minus signs in a row. *)
Fixpoint minus_signs (n : nat) : string :=
  match n with
  | O => ""
  | S n' => String "-" (minus_signs n')
  end.

(** A candidate list probed in order: [k], at position [i], is the first
    candidate that is a key of the table, and [entry] is what it maps to. *)
Definition first_present (rules : Rules) (cands : list string)
    (i : nat) (k : string) (entry : RuleEntry) : Prop :=
  cands !! i = Some k ∧ rules !! k = Some entry ∧
  ∀ j k', (j < i)%nat → cands !! j = Some k' → rules !! k' = None.

(** The user filter in the specification's words: the filter list is
    non-empty, the sender is known, and the sender is not in the list. *)
Definition excluded (user_id : option Z) (target : Target) : Prop :=
  default [] (tgt_user_ids target) ≠ [] ∧
  ∃ u, user_id = Some u ∧ u ∉ default [] (tgt_user_ids target).

#[global] Instance excluded_dec user_id target : Decision (excluded user_id target).
Proof.
  unfold excluded. destruct user_id as [u|].
  - destruct (decide (default [] (tgt_user_ids target) ≠ [])) as [Hne|He].
    + destruct (decide (u ∈ default [] (tgt_user_ids target))) as [Hin|Hout].
      * right. intros [_ [u' [[= <-] Hu']]]. done.
      * left. eauto.
    + right. by intros [? _].
  - right. by intros [_ [u [? _]]].
Defined.

Definition wildcard_targets (entry : RuleEntry) : list Target :=
  default [] (entry !! "*").

Definition topic_targets (entry : RuleEntry) (topic_id : option Z) : list Target :=
  match topic_id with
  | Some t => default [] (entry !! pretty t)
  | None => []
  end.

(** The targets of a list that pass the user filter, as decision elements. *)
Definition passing (user_id : option Z) (targets : list Target) : list Forward :=
  forward_of <$> filter (λ t, ¬ excluded user_id t) targets.

(** The scenario table of the specification:
    [{"-1001234": {"*": [{"chat_id": "999"}]}}]. *)
Definition scenario_rules : Rules :=
  {[ "-1001234" := {[ "*" := [mkTarget "999" None None] ]} ]}.

(** Two text forms of one chat as separate keys of a table. *)
Definition two_key_rules : Rules :=
  {[ "-1001234" := {[ "*" := [mkTarget "111" None None] ]};
     "1234" := {[ "*" := [mkTarget "222" None None];
                  "7" := [mkTarget "333" (Some 5%Z) None] ]} ]}.

(** What a secondary message is formatted as. *)
Inductive Kind :=
  | KReply
  | KLinked (url : string)
  | KPlain.

(** The kind the arguments [is_reply] and [linked_from] select. *)
Definition kind_of (is_reply : bool) (linked_from : option string) : Kind :=
  if is_reply then KReply
  else
    match linked_from with
    | Some url => if truthy_str url then KLinked url else KPlain
    | None => KPlain
    end.

(** The formatted text in the specification's words:
    ["{prefix}{senderDisplay}: {bodyOrPlaceholder}"]. *)
Definition stated_prefix (k : Kind) : string :=
  match k with
  | KReply => "In reply to:"
  | KLinked url => "Linked message: " +:+ url
  | KPlain => ""
  end.

Definition stated_secondary (k : Kind) (display body : string) : string :=
  stated_prefix k +:+ display +:+ ": " +:+ body.

(** The formatted text with the markup the code writes. *)
Definition marked_prefix (k : Kind) : string :=
  match k with
  | KReply => "⤴️ **In reply to:**" +:+ nl
  | KLinked url => "🔗 **Linked message:** " +:+ url +:+ nl
  | KPlain => ""
  end.

Definition marked_secondary (k : Kind) (display body : string) : string :=
  marked_prefix k +:+ "**" +:+ display +:+ ":** " +:+ body.

(** The display name in the specification's words: first name, then a
    space and the last name if there is one, then the user name in
    [" (@...)"] if there is one; without any of them ["User {id}"], and
    ["Unknown User"] without an id. *)
Definition stated_display (first last user : string) (id : option Z) : string :=
  let name :=
    first +:+ (if truthy_str last then " " +:+ last else "")
          +:+ (if truthy_str user then " (@" +:+ user +:+ ")" else "") in
  if truthy_str name then name
  else
    match id with
    | Some n => "User " +:+ pretty n
    | None => "Unknown User"
    end.

Definition text_of (a : Attr string) : string := default "" (getattr a).

(** A sender whose only field is a first name, one without fields, and a
    message with plain text. *)
Definition sender_named (first : string) : Sender :=
  {| first_name := Present (Some first); last_name := Absent;
     username := Absent; sender_id := Absent |}.

Definition sender_without_fields : Sender :=
  {| first_name := Absent; last_name := Absent;
     username := Absent; sender_id := Absent |}.

Definition text_message (id : Z) (text : string) : Message :=
  {| msg_id := id; msg_message := Present (Some text);
     msg_text := Present (Some text); msg_raw_text := Present (Some text);
     msg_extracted_text := Absent; msg_to_dict_message := Some (Some text);
     msg_title := None; msg_media := None; msg_entities := None;
     msg_topic_id := Absent; msg_topic := Absent; msg_reply_to := None;
     msg_post := false |}.

(** A client that answers every request the same way. *)
Definition constant_client (entity : result Entity)
    (sender : result (option Sender)) (forwarded : result (option Message))
    (sent : result unit) : Client :=
  {| get_entity_reply := λ _, entity;
     get_sender_reply := λ _, sender;
     full_channel_reply := λ _, Raise (OtherError "RPCError");
     channel_messages_reply := λ _, Raise (OtherError "RPCError");
     discussion_reply := λ _, Raise (OtherError "RPCError");
     get_messages_reply := λ _, Ok None;
     forward_reply := λ _, forwarded;
     edit_reply := λ _, Ok tt;
     send_reply := λ _, sent |}.

Definition quiet_client (sender : option Sender) : Client :=
  constant_client (Raise (OtherError "RPCError")) (Ok sender)
                  (Ok None) (Ok tt).

Definition value_of {A} (r : result A) : option A :=
  match r with
  | Ok a => Some a
  | Raise _ => None
  end.

(** The text [format_message_for_forwarding] produces from a state. *)
Definition formatted_text (client : Client) (message : Message)
    (is_reply : bool) (linked_from : option string) (st : State)
  : option string :=
  content_text <$>
    value_of (format_message_for_forwarding client message is_reply
                                            linked_from st).1.

(** The display name for whatever [get_sender] answered. *)
Definition display_of (answer : result (option Sender)) : string :=
  match answer with
  | Ok (Some s) => sender_display (Some s)
  | Ok None => "Unknown User"
  | Raise _ => "Unknown User"
  end.

(** [m] keeps a property of the state: if it holds before, it holds after,
    whether [m] returns or raises. *)
Definition keeps {A} (I : State → Prop) (m : M A) : Prop :=
  ∀ st, I st → I (m st).2.

(** [m] never raises. *)
Definition returns {A} (m : M A) : Prop :=
  ∀ st, ∃ a st', m st = (Ok a, st').

(** The request that forwards a message natively. *)
Definition is_forward_call (c : Call) : bool :=
  match c with
  | ForwardMessages _ _ => true
  | _ => false
  end.

(** A property of the state that survives every request other than a
    native forward and every cache update the program makes: writing an
    entity, a topic cache, a resolved link, or marking a chat. *)
Record stable (I : State → Prop) : Prop := mkStable {
  stable_call : ∀ c st, is_forward_call c = false → I st → I (log_call c st);
  stable_entities : ∀ f st, I st → I (set_chat_entities f st);
  stable_topics : ∀ c (t : gmap Z string) st,
    I st → I (set_chat_topics <[c := t]> st);
  stable_no_forward : ∀ c st,
    I st → I (set_no_forward_chats (λ s, s ∪ {[c]}) st);
  stable_resolved : ∀ f st, I st → I (set_resolved_message_links f st)
}.

(** The chat already has a topic cache. *)
Definition has_topic_cache (chat_id : ChatId) (st : State) : Prop :=
  is_Some (chat_topics st !! chat_id).

(** The chat is marked as rejecting native forwards. *)
Definition forwarding_denied (chat_id : ChatId) (st : State) : Prop :=
  chat_id ∈ no_forward_chats st.

(** A client whose very first answer is an error and which answers every
    later request: any entity lookup finds [entity], any message lookup
    finds [message]. *)
Definition recovering_client (entity : Entity) (message : Message) : Client :=
  {| get_entity_reply := λ t, if decide (t = 0%nat)
                              then Raise (OtherError "RPCError") else Ok entity;
     get_sender_reply := λ _, Ok None;
     full_channel_reply := λ _, Raise (OtherError "RPCError");
     channel_messages_reply := λ _, Raise (OtherError "RPCError");
     discussion_reply := λ _, Raise (OtherError "RPCError");
     get_messages_reply := λ _, Ok (Some message);
     forward_reply := λ _, Ok None;
     edit_reply := λ _, Ok tt;
     send_reply := λ _, Ok tt |}.

Definition some_forum : Entity :=
  {| ent_id := 1234; ent_title := Some "Forum"; ent_is_channel := true;
     ent_megagroup := true; ent_forum := true; ent_noforwards := false |}.

Definition some_channel : Entity :=
  {| ent_id := 555; ent_title := Some "News"; ent_is_channel := true;
     ent_megagroup := false; ent_forum := false; ent_noforwards := false |}.

(** The record of the link [https://t.me/c/555/10]. *)
Definition some_link : LinkData :=
  {| full_match := "https://t.me/c/555/10"; message_id := 10;
     link_chat_id := Some "555"; link_username := None;
     link_topic_id := None |}.

(** The caches of two states are the same. *)
Definition same_caches (st st' : State) : Prop :=
  chat_entities st' = chat_entities st ∧
  chat_topics st' = chat_topics st ∧
  no_forward_chats st' = no_forward_chats st ∧
  resolved_message_links st' = resolved_message_links st.

(** From a state where [I] holds, [m] ends in a result and a state
    related by [Q]. *)
Definition ensures {A} (I : State → Prop) (m : M A)
    (Q : result A → State → Prop) : Prop :=
  ∀ st, I st → Q (m st).1 (m st).2.

(** The client's answer, already read. *)
Definition answer {A} (r : result A) : M A := λ st, (r, st).

(** Since state [st0] a request satisfying [P] has been made. *)
Definition logged_since (P : Call → Prop) (st0 st : State) : Prop :=
  ∃ before c after, calls st = calls st0 ++ before ++ c :: after ∧ P c.

(** Since state [st0] only the requests [st0] had made and further ones
    have been made, none of them a native forward. *)
Definition no_native_forward (st0 st : State) : Prop :=
  ∃ l, calls st = calls st0 ++ l ∧ Forall (λ c, is_forward_call c = false) l.

(** The log of [st0] is the beginning of the log of [st]. *)
Definition log_extends (st0 st : State) : Prop :=
  calls st0 `prefix_of` calls st.

(** [c] sends the reconstructed message to the target. *)
Definition sends_to (target : Forward) (c : Call) : Prop :=
  match c with
  | SendMessage to _ reply_to _ _ =>
      to = to_chat target ∧ reply_to = to_topic target
  | _ => False
  end.

(** [c] delivers to the target one way or the other: as a native forward
    to the chat its [to_chat] names, or as a reconstructed message. *)
Definition delivers_to (target : Forward) (c : Call) : Prop :=
  match c with
  | ForwardMessages to _ => int_of_string (to_chat target) = Some to
  | _ => sends_to target c
  end.

(** A delivery to the target has been attempted between [st0] and [st]. *)
Definition attempted (target : Forward) (st0 st : State) : Prop :=
  logged_since (delivers_to target) st0 st.

(** The target has been served by the reconstruction path. *)
Definition sent_as_text (target : Forward) (st0 st : State) : Prop :=
  logged_since (sends_to target) st0 st.

(** The chats the reconstructed messages of a log were sent to. *)
Definition send_targets (log : list Call) : list string :=
  omap (λ c, match c with
             | SendMessage to _ _ _ _ => Some to
             | _ => None
             end) log.

(** A client no delivery gets through: every forward is refused, every
    send fails, no entity resolves. *)
Definition refusing_client : Client :=
  constant_client (Raise (OtherError "RPCError")) (Ok None)
                  (Raise ForbiddenError) (Raise (OtherError "FloodWaitError")).

Definition plain_target (chat : string) : Forward :=
  {| to_chat := chat; to_topic := None; include_source := true |}.

Definition some_event : Event :=
  {| ev_chat_id := IntId (-1001234); ev_message := text_message 10 "hello" |}.

(** The event as the handler passes it on, with [_extracted_text] set. *)
Definition prepared (event : Event) : Event :=
  {| ev_chat_id := ev_chat_id event;
     ev_message := set_extracted_text (ev_message event)
                     (extract_message_text (ev_message event)) |}.

(** The decision the handler takes for an event arriving in state [st]:
    [should_forward] on the sender id and the topic id it has found. *)
Definition decision_for (client : Client) (rules : Rules) (event : Event)
    (st : State) : list Forward :=
  match sender_id_of client (ev_message (prepared event)) st with
  | (Ok sender_id, st1) =>
      match extract_topic_id client (prepared event) st1 with
      | (Ok topic_id, _) =>
          should_forward rules (ev_chat_id event) topic_id sender_id
      | (Raise _, _) => []
      end
  | (Raise _, _) => []
  end.

(** The changes of state the program is made of: a request to the client,
    or a write to one of the caches.  Whatever handlers run, and however
    their steps interleave, the state moves by these. *)
Inductive step : State → State → Prop :=
  | step_call c st : step st (log_call c st)
  | step_entity f st : step st (set_chat_entities f st)
  | step_topics c (t : gmap Z string) st :
      step st (set_chat_topics <[c := t]> st)
  | step_mark c st : step st (set_no_forward_chats (λ s, s ∪ {[c]}) st)
  | step_link f st : step st (set_resolved_message_links f st).

(** [st'] comes after [st] in a run of the process. *)
Definition later_than (st st' : State) : Prop := rtc step st st'.

(** When [m] returns a topic name, that name is the one cached for the
    topic in the state it leaves. *)
Definition caches_result (chat_id : ChatId) (topic_id : Z)
    (m : M (option string)) : Prop :=
  ∀ st name, (m st).1 = Ok (Some name) →
             cached_topic (m st).2 chat_id topic_id = Some name.

(** Between [st] and [st'] the caches have only grown: every cached
    entity and every resolved link is still there unchanged, every marked
    chat is still marked, every topic that had a cached name still has
    one, and the request log has only been appended to. *)
Definition grows (st st' : State) : Prop :=
  chat_entities st ⊆ chat_entities st' ∧
  resolved_message_links st ⊆ resolved_message_links st' ∧
  no_forward_chats st ⊆ no_forward_chats st' ∧
  (∀ c t, is_Some (cached_topic st c t) → is_Some (cached_topic st' c t)) ∧
  calls st `prefix_of` calls st'.

(** A message of a forum that only carries a reply header. *)
Definition header_message (id : Z) (text : string) (reply_to : ReplyTo)
  : Message :=
  {| msg_id := id; msg_message := Present (Some text);
     msg_text := Present (Some text); msg_raw_text := Present (Some text);
     msg_extracted_text := Absent; msg_to_dict_message := Some (Some text);
     msg_title := None; msg_media := None; msg_entities := None;
     msg_topic_id := Absent; msg_topic := Absent;
     msg_reply_to := Some reply_to; msg_post := false |}.

(** The header of a post written into topic [topic]: flagged, without
    top-level id, pointing at the topic's first message. *)
Definition topic_post_header (topic : Z) : ReplyTo :=
  {| forum_topic := true; top_msg_id := Absent;
     reply_to_top_id := Present None; reply_to_msg_id := Present (Some topic) |}.

(** The header of a reply to message [replied] inside topic [topic]. *)
Definition topic_reply_header (topic replied : Z) : ReplyTo :=
  {| forum_topic := true; top_msg_id := Absent;
     reply_to_top_id := Present (Some topic);
     reply_to_msg_id := Present (Some replied) |}.

(** The body of the outgoing text: the message's text, or a placeholder. *)
Definition main_body (message : Message) : string :=
  if truthy_str (extract_message_text message) then
    extract_message_text message
  else
    match msg_media message with
    | Some _ =>
        "[Message with " +:+
        fmt_opt_str (get_media_type_name (msg_media message)) +:+ "]"
    | None => "[Empty message]"
    end.

(** The chats the native forwards of a log went to. *)
Definition forward_targets (log : list Call) : list Z :=
  omap (λ c, match c with
             | ForwardMessages to _ => Some to
             | _ => None
             end) log.

(** A native forward or the edit that moves a forwarded message into a
    topic. *)
Definition is_native_call (c : Call) : bool :=
  match c with
  | ForwardMessages _ _ | EditMessage _ _ _ => true
  | _ => false
  end.

(** The native forward to [to_chat], asked for in state [st], goes
    through: the chat id is a number and the client answers the request. *)
Definition goes_through (client : Client) (to_chat : string) (st : State)
  : bool :=
  match int_of_string to_chat, forward_reply client (clock st) with
  | Some _, Ok _ => true
  | _, _ => false
  end.

(** The native forward to [to_chat], asked for in state [st], is refused
    with one of the three restriction errors. *)
Definition refused (client : Client) (to_chat : string) (st : State) : bool :=
  match int_of_string to_chat, forward_reply client (clock st) with
  | Some _, Raise e => is_forward_restriction e
  | _, _ => false
  end.

(** The sender lookup gives the user filter nothing to test: the request
    fails, finds no sender, or finds one without an id. *)
Definition sender_unknown (reply : result (option Sender)) : Prop :=
  match reply with
  | Raise _ => True
  | Ok None => True
  | Ok (Some sender) => getattr (sender_id sender) = None
  end.

(** A client that finds the forum but fails every sender lookup. *)
Definition anonymous_client : Client :=
  constant_client (Ok some_forum) (Raise (OtherError "RPCError"))
                  (Ok None) (Ok tt).

(** The main message of a reconstruction: the prepared text, sent to the
    target with the formatting entities of the original and the media
    that can be sent along. *)
Definition rebuilt_call (message : Message) (contents : list Content)
    (to_chat : string) (to_topic : option Z) (include_source : bool)
    (source_info : string) : Call :=
  let '(text, sendable_media, _) :=
    prepare_forwarding_content message source_info include_source contents in
  SendMessage to_chat text to_topic (msg_entities message) sendable_media.


(** [old in s] *)
Fixpoint occurs (old s : string) : bool :=
  startswith old s ||
  match s with
  | EmptyString => false
  | String _ s' => occurs old s'
  end.

Definition photo_message : Message :=
  {| msg_id := 12; msg_message := Present (Some "");
     msg_text := Present (Some ""); msg_raw_text := Present (Some "");
     msg_extracted_text := Absent; msg_to_dict_message := Some (Some "");
     msg_title := None; msg_media := Some (mkMedia "MessageMediaPhoto");
     msg_entities := None; msg_topic_id := Absent; msg_topic := Absent;
     msg_reply_to := None; msg_post := false |}.

(** The id a field holds, when the object has the field and it holds
    one. *)
Definition held (field : Attr Z) : option Z :=
  match field with
  | Present (Some v) => Some v
  | _ => None
  end.

(** First success wins. *)
Fixpoint first_success (steps : list (option Z)) : option Z :=
  match steps with
  | [] => None
  | Some v :: _ => Some v
  | None :: rest => first_success rest
  end.

(** The precedence chain as the specification states it, for a message
    of a forum: an explicit topic field; the top-level id of reply
    metadata flagged as a forum-topic reference; the generic top-message
    id of reply metadata; the id of the message replied to; the message's
    own id for a topic-starting post; 1.  The first step that gives an id
    wins. *)
Definition stated_topic (m : Message) : option Z :=
  let of_header (f : ReplyTo → option Z) : option Z :=
    match msg_reply_to m with
    | Some r => f r
    | None => None
    end in
  first_success
    [ first_success [held (msg_topic_id m); held (msg_topic m)];
      of_header (λ r, if forum_topic r
                      then first_success [held (top_msg_id r);
                                          held (reply_to_top_id r)]
                      else None);
      of_header (λ r, first_success [held (reply_to_top_id r);
                                     held (top_msg_id r)]);
      of_header (λ r, held (reply_to_msg_id r));
      (if msg_post m then Some (msg_id m) else None);
      Some 1%Z ].

(** The chain as amended, inside reply metadata: the flag chooses which
    top-level field is read, the presence of a field, not of an id in it,
    closes the choice, and the id of the message replied to is taken
    when the chosen field gives none. *)
Definition header_topic (r : ReplyTo) : option Z :=
  let top_level :=
    match forum_topic r, top_msg_id r, reply_to_top_id r with
    | true, Present v, _ => v
    | true, Absent, Present v => v
    | false, _, Present v => v
    | false, Present v, Absent => v
    | _, Absent, Absent => None
    end in
  match top_level, reply_to_msg_id r with
  | Some v, _ => Some v
  | None, Present v => v
  | None, Absent => None
  end.

(** The chain as amended, for a message of a forum: the first source
    that is present decides, whether or not it gives an id. *)
Definition amended_topic (m : Message) : option Z :=
  match msg_topic_id m, msg_topic m, msg_reply_to m with
  | Present v, _, _ => v
  | Absent, Present v, _ => v
  | Absent, Absent, Some r => header_topic r
  | Absent, Absent, None => if msg_post m then Some (msg_id m) else Some 1%Z
  end.

(** The header of a reply to a story: none of the fields the chain
    reads. *)
Definition story_header : ReplyTo :=
  {| forum_topic := false; top_msg_id := Absent; reply_to_top_id := Absent;
     reply_to_msg_id := Absent |}.

(** The header of a reply that names no message of the chat: the fields
    are there and empty. *)
Definition empty_header : ReplyTo :=
  {| forum_topic := false; top_msg_id := Absent;
     reply_to_top_id := Present None; reply_to_msg_id := Present None |}.

(** A client for which every chat is the forum. *)
Definition forum_client : Client :=
  constant_client (Ok some_forum) (Ok None) (Ok None) (Ok tt).

(** An event of the forum. *)
Definition forum_event (m : Message) : Event :=
  {| ev_chat_id := IntId (-1001234); ev_message := m |}.





(** * Verification *)

(** ** Strings *)

Lemma append_cons a s t : String a s +:+ t = String a (s +:+ t).
Proof. reflexivity. Qed.

Lemma startswith_correct p s :
  startswith p s = true ↔ ∃ rest, s = p +:+ rest.
Proof.
  unfold startswith. revert s. induction p as [|a p IH]; intros s; simpl.
  - destruct s; split; eauto.
  - destruct s as [|b s]; simpl.
    + split; [done | by intros [? ?]].
    + destruct (ascii_dec a b) as [->|Hne].
      * rewrite IH. split; intros [rest Hr]; exists rest.
        -- by rewrite Hr.
        -- rewrite append_cons in Hr. by injection Hr.
      * split; [done | intros [? Hr]; rewrite append_cons in Hr; by injection Hr].
Qed.

Lemma slice_from_app p s : slice_from (String.length p) (p +:+ s) = s.
Proof.
  induction p as [|a p IH]; [done |].
  rewrite append_cons. simpl. exact IH.
Qed.

Lemma lstrip_minus_spec s :
  ∃ n, s = minus_signs n +:+ lstrip "-"%char s ∧
       ∀ rest, lstrip "-"%char s ≠ "-" +:+ rest.
Proof.
  induction s as [|a s [n [Hs Hno]]]; simpl.
  - exists 0%nat. split; [done | by intros ?].
  - destruct (Ascii.eqb a "-"%char) eqn:E.
    + apply Ascii.eqb_eq in E as ->. exists (S n). simpl.
      rewrite append_cons. split; [by f_equal | done].
    + exists 0%nat. split; [done |].
      intros rest Hr. rewrite append_cons in Hr. injection Hr as -> _.
      by rewrite Ascii.eqb_refl in E.
Qed.

(** ** The Python helpers on small inputs *)

Example int_of_string_examples :
  int_of_string "-1001234" = Some (-1001234)%Z
  ∧ int_of_string " +12_3 " = Some 123%Z
  ∧ int_of_string "alice" = None
  ∧ int_of_string "1__2" = None
  ∧ int_of_string "" = None.
Proof. repeat split; by vm_compute. Qed.

Example get_media_type_name_examples :
  get_media_type_name (Some (mkMedia "MessageMediaPhoto")) = Some "Photo"
  ∧ get_media_type_name (Some (mkMedia "MessageMediaWebPage")) = Some "WebPage"
  ∧ get_media_type_name None = None
  ∧ str_replace "ab" "-" "xababyab" = "x--y-"
  ∧ str_replace "aa" "b" "aaa" = "ba".
Proof. repeat split; by vm_compute. Qed.

Example normalize_chat_id_examples :
  normalize_chat_id (IntId (-1001234)) = ["-1001234"; "1234"; "-1234"]
  ∧ normalize_chat_id (StrId "1234") = ["1234"; "-1001234"]
  ∧ normalize_chat_id (IntId (-1234)) = ["-1234"; "-1001234"]
  ∧ normalize_chat_id (StrId "--5") = ["--5"; "-1005"].
Proof. repeat split; by vm_compute. Qed.

(** ** Chat-id normalization *)

Lemma normalize_prefixed rest :
  ∀ c, py_str c = "-100" +:+ rest →
       normalize_chat_id c = [py_str c; rest; "-" +:+ rest].
Proof.
  intros c Hc. unfold normalize_chat_id.
  assert (startswith "-100" (py_str c) = true) as ->
    by (apply startswith_correct; eauto).
  rewrite Hc. pose proof (slice_from_app "-100" rest) as Hs.
  change (String.length "-100") with 4%nat in Hs. by rewrite Hs.
Qed.

Lemma normalize_unprefixed c :
  (∀ rest, py_str c ≠ "-100" +:+ rest) →
  normalize_chat_id c = [py_str c; "-100" +:+ lstrip "-"%char (py_str c)].
Proof.
  intros Hc. unfold normalize_chat_id.
  destruct (startswith "-100" (py_str c)) eqn:E; [| done].
  apply startswith_correct in E as [rest Hr]. by destruct (Hc rest).
Qed.

(** C5. Whatever the chat identifier (number or text), its candidate list
    is [as-is; prefix-stripped; "-" + prefix-stripped] when its text form
    starts with "-100", and [as-is; "-100" + body] otherwise, where [body]
    is the text form without its leading minus signs. *)
Theorem normalize_chat_id_candidates (c : ChatId) :
  (∃ rest, py_str c = "-100" +:+ rest ∧
           normalize_chat_id c = [py_str c; rest; "-" +:+ rest])
  ∨
  ((∀ rest, py_str c ≠ "-100" +:+ rest) ∧
   ∃ n body, py_str c = minus_signs n +:+ body ∧
             (∀ rest, body ≠ "-" +:+ rest) ∧
             normalize_chat_id c = [py_str c; "-100" +:+ body]).
Proof.
  destruct (startswith "-100" (py_str c)) eqn:E.
  - left. apply startswith_correct in E as [rest Hr].
    exists rest. split; [done | by apply normalize_prefixed].
  - right.
    assert (∀ rest, py_str c ≠ "-100" +:+ rest) as Hno.
    { intros rest Hr.
      assert (startswith "-100" (py_str c) = true)
        by (apply startswith_correct; eauto).
      congruence. }
    split; [done |].
    destruct (lstrip_minus_spec (py_str c)) as [n [Hs Hb]].
    exists n, (lstrip "-"%char (py_str c)).
    split; [done |]. split; [done |]. by apply normalize_unprefixed.
Qed.

Lemma normalize_head c : ∃ rest, normalize_chat_id c = py_str c :: rest.
Proof. unfold normalize_chat_id. destruct (startswith _ _); eauto. Qed.

(** C6. Normalization is stable: every candidate produced for a chat id is
    again among the candidates of that candidate; the candidate list
    depends on the identifier's text form only, and re-normalizing the
    first candidate gives the same list. *)
Theorem normalize_chat_id_stable (x : ChatId) (c : string)
    (Hc : c ∈ normalize_chat_id x) :
  c ∈ normalize_chat_id (StrId c) ∧
  (∀ y, py_str x = py_str y → normalize_chat_id x = normalize_chat_id y) ∧
  (∀ first, head (normalize_chat_id x) = Some first →
            normalize_chat_id (StrId first) = normalize_chat_id x).
Proof.
  split; [| split].
  - destruct (normalize_head (StrId c)) as [rest ->]. simpl. left.
  - intros y Hy. unfold normalize_chat_id. by rewrite Hy.
  - intros first Hf. destruct (normalize_head x) as [rest Hx].
    rewrite Hx in Hf. injection Hf as <-. done.
Qed.

(** The unprefixed candidate of a prefixed chat id, normalized again. *)
Lemma normalize_chat_id_stable_witness :
  "1234" ∈ normalize_chat_id (IntId (-1001234)) ∧
  "1234" ∈ normalize_chat_id (StrId "1234").
Proof.
  assert ("1234" ∈ normalize_chat_id (IntId (-1001234))) as H
    by (vm_compute; right; left).
  split; [exact H |].
  exact (proj1 (normalize_chat_id_stable (IntId (-1001234)) "1234" H)).
Defined.

(** The text form of an integer is never the wildcard key. *)
Lemma pretty_N_go_ne_star x s s' :
  s ≠ "*" +:+ s' → pretty_N_go x s ≠ "*" +:+ s'.
Proof.
  revert s. induction (N.lt_wf_0 x) as [x _ IH]; intros s Hs.
  assert (x = 0 ∨ 0 < x)%N as [->|Hpos] by lia.
  - by rewrite pretty_N_go_0.
  - rewrite pretty_N_go_step by done. apply IH.
    + by apply N.div_lt.
    + unfold pretty_N_char. by repeat case_match.
Qed.

Lemma pretty_Z_ne_star (t : Z) : pretty t ≠ "*".
Proof.
  unfold pretty, pretty_Z. destruct t as [|p|p]; [done | |done].
  unfold pretty, pretty_positive, pretty, pretty_N.
  rewrite decide_False by done.
  by apply (pretty_N_go_ne_star _ "" "").
Qed.

Lemma wildcard_only_lookup (targets : list Target) (t : Z) :
  ({[ "*" := targets ]} : RuleEntry) !! pretty t = None.
Proof.
  apply lookup_singleton_ne. intros H. by apply (pretty_Z_ne_star t).
Qed.

(** ** Rule matching *)

Lemma skips_excluded user_id target :
  skips user_id target = true ↔ excluded user_id target.
Proof.
  unfold skips, excluded.
  destruct (default [] (tgt_user_ids target)) as [|a l] eqn:E.
  - split; [done | by intros [? _]].
  - destruct user_id as [u|].
    + rewrite negb_true_iff, bool_decide_eq_false. split.
      * intros Hout. split; [done | eauto].
      * by intros [_ [u' [[= <-] Hu']]].
    + split; [done | by intros [_ [u [? _]]]].
Qed.

Lemma collect_targets_passing user_id targets result :
  collect_targets user_id targets result = result ++ passing user_id targets.
Proof.
  unfold collect_targets, passing. revert result.
  induction targets as [|t ts IH]; intros result; simpl.
  - by rewrite app_nil_r.
  - rewrite IH, filter_cons. destruct (skips user_id t) eqn:E.
    + apply skips_excluded in E. by rewrite decide_False by tauto.
    + assert (¬ excluded user_id t) as Hn
        by (rewrite <- skips_excluded; congruence).
      rewrite decide_True by done. by rewrite fmap_cons, <- app_assoc.
Qed.

Lemma find_matching_rules_None rules cands :
  find_matching_rules rules cands = None ↔ ∀ k, k ∈ cands → rules !! k = None.
Proof.
  induction cands as [|k0 cands IH]; simpl.
  - split; [by intros _ k ?%elem_of_nil | done].
  - destruct (rules !! k0) eqn:E.
    + split; [done |]. intros H. specialize (H k0). rewrite E in H.
      apply H. left.
    + rewrite IH. split.
      * intros H k [->|Hk]%elem_of_cons; auto.
      * intros H k Hk. apply H. by right.
Qed.

Lemma find_matching_rules_Some rules cands entry :
  find_matching_rules rules cands = Some entry →
  ∃ i k, first_present rules cands i k entry.
Proof.
  induction cands as [|k0 cands IH]; simpl; [done |].
  destruct (rules !! k0) eqn:E.
  - intros [= ->]. exists 0%nat, k0. repeat split; [done | lia].
  - intros (i & k & Hi & Hk & Hbefore)%IH. exists (S i), k.
    repeat split; [done | done |].
    intros [|j] k' Hj Hk'; simpl in Hk'.
    + by injection Hk' as <-.
    + apply (Hbefore j); [lia | done].
Qed.

Lemma first_present_unique rules cands i k entry :
  first_present rules cands i k entry →
  find_matching_rules rules cands = Some entry.
Proof.
  revert i. induction cands as [|k0 cands IH]; intros i (Hi & Hk & Hbefore).
  - by rewrite lookup_nil in Hi.
  - simpl. destruct i as [|i]; simpl in Hi.
    + injection Hi as ->. by rewrite Hk.
    + rewrite (Hbefore 0%nat k0) by (lia || done).
      apply (IH i). repeat split; [done | done |].
      intros j k' Hj Hk'. apply (Hbefore (S j)); [lia | done].
Qed.

Lemma should_forward_matched rules c topic user entry :
  find_matching_rules rules (normalize_chat_id c) = Some entry →
  should_forward rules c topic user =
    passing user (wildcard_targets entry) ++ passing user (topic_targets entry topic).
Proof.
  intros Hm. unfold should_forward, wildcard_targets, topic_targets. rewrite Hm.
  destruct (entry !! "*") as [ws|]; destruct topic as [t|]; simpl;
    try destruct (entry !! pretty t) as [ts|]; simpl;
    rewrite ?collect_targets_passing, ?app_nil_r; done.
Qed.

(** C1. [should_forward] probes the candidate keys in order and takes the
    first one present in the table as the only matched entry; the decision
    is that entry's ["*"] targets passing the user filter followed by the
    targets under the topic id's text form passing the filter, so its
    length is the sum of the two counts.  With no candidate present, and
    so for the empty table, the decision is empty.  An unprefixed chat id
    finds a rule stored under the prefixed key, and a second key of the
    same chat is never merged in. *)
Theorem should_forward_first_match (rules : Rules) (c : ChatId)
    (topic user : option Z) :
  ((∃ i k entry,
      first_present rules (normalize_chat_id c) i k entry ∧
      should_forward rules c topic user =
        passing user (wildcard_targets entry) ++
        passing user (topic_targets entry topic) ∧
      length (should_forward rules c topic user) =
        (length (passing user (wildcard_targets entry)) +
         length (passing user (topic_targets entry topic)))%nat)
   ∨
   ((∀ k, k ∈ normalize_chat_id c → rules !! k = None) ∧
    should_forward rules c topic user = []))
  ∧ (∀ i k entry,
       first_present rules (normalize_chat_id c) i k entry →
       should_forward rules c topic user =
         passing user (wildcard_targets entry) ++
         passing user (topic_targets entry topic))
  ∧ should_forward ∅ c topic user = []
  ∧ should_forward scenario_rules (StrId "1234") topic user =
      [mkForward "999" None true]
  ∧ should_forward scenario_rules (IntId 1234) topic user =
      [mkForward "999" None true]
  ∧ should_forward two_key_rules (IntId (-1001234)) (Some 7%Z) user =
      [mkForward "111" None true]
  ∧ should_forward two_key_rules (IntId 1234) (Some 7%Z) user =
      [mkForward "222" None true; mkForward "333" (Some 5%Z) true].
Proof.
  split; [| split; [| split; [| split; [| split; [| split]]]]].
  - destruct (find_matching_rules rules (normalize_chat_id c)) as [entry|] eqn:E.
    + left. destruct (find_matching_rules_Some _ _ _ E) as (i & k & Hfp).
      exists i, k, entry. split; [done |].
      rewrite (should_forward_matched _ _ _ _ _ E).
      split; [done | by rewrite length_app].
    + right. split; [by apply find_matching_rules_None |].
      unfold should_forward. by rewrite E.
  - intros i k entry Hfp. apply should_forward_matched.
    by apply (first_present_unique _ _ i k).
  - unfold should_forward.
    assert (find_matching_rules ∅ (normalize_chat_id c) = None) as ->; [| done].
    apply find_matching_rules_None. intros k _. apply lookup_empty.
  - rewrite (should_forward_matched _ _ _ _ {[ "*" := [mkTarget "999" None None] ]})
      by done.
    unfold wildcard_targets, topic_targets. rewrite lookup_singleton_eq.
    destruct topic as [t|]; rewrite ?wildcard_only_lookup; by destruct user.
  - rewrite (should_forward_matched _ _ _ _ {[ "*" := [mkTarget "999" None None] ]})
      by done.
    unfold wildcard_targets, topic_targets. rewrite lookup_singleton_eq.
    destruct topic as [t|]; rewrite ?wildcard_only_lookup; by destruct user.
  - by vm_compute.
  - by vm_compute.
Qed.

(** C2. A target is left out of the decision exactly when its [user_ids]
    list is non-empty, the sender id is known, and the sender id is not
    in the list: wherever the target stands in an evaluated list, it
    contributes nothing in that case and its decision element otherwise.
    With [user_ids = [42]] the target is kept for sender 42, dropped for
    sender 7 and kept for an unknown sender. *)
Theorem user_filter_excludes_iff (user : option Z) (target : Target) :
  (skips user target = true ↔
     default [] (tgt_user_ids target) ≠ [] ∧
     ∃ u, user = Some u ∧ u ∉ default [] (tgt_user_ids target))
  ∧ (∀ before after result,
       collect_targets user (before ++ target :: after) result =
         collect_targets user before result ++
         (if decide (excluded user target) then [] else [forward_of target]) ++
         collect_targets user after [])
  ∧ (∀ c topic,
       should_forward {[ py_str c := {[ "*" := [target] ]} ]} c topic user =
         if decide (excluded user target) then [] else [forward_of target])
  ∧ (let t42 := mkTarget "999" None (Some [42%Z]) in
     let rules : Rules := {[ "-1001234" := {[ "*" := [t42] ]} ]} in
     should_forward rules (IntId (-1001234)) None (Some 42%Z) = [forward_of t42] ∧
     should_forward rules (IntId (-1001234)) None (Some 7%Z) = [] ∧
     should_forward rules (IntId (-1001234)) None None = [forward_of t42]).
Proof.
  split; [| split; [| split]].
  - apply skips_excluded.
  - intros before after result.
    rewrite !collect_targets_passing. unfold passing.
    rewrite filter_app, filter_cons, fmap_app.
    destruct (decide (excluded user target)).
    + rewrite decide_False by tauto. by rewrite <- app_assoc.
    + rewrite decide_True by done. by rewrite fmap_cons, <- app_assoc.
  - intros c topic.
    destruct (normalize_head c) as [rest Hn].
    rewrite (should_forward_matched _ _ _ _ {[ "*" := [target] ]}).
    + unfold wildcard_targets, topic_targets.
      rewrite lookup_singleton_eq.
      assert (match topic with
              | Some t => default [] (({[ "*" := [target] ]} : RuleEntry) !! pretty t)
              | None => []
              end = []) as ->
        by (destruct topic as [t|]; [by rewrite wildcard_only_lookup | done]).
      unfold passing. simpl. rewrite app_nil_r, filter_cons.
      destruct (decide (excluded user target)).
      * by rewrite decide_False by tauto.
      * by rewrite decide_True by done.
    + rewrite Hn. simpl. by rewrite lookup_singleton_eq.
  - by vm_compute.
Qed.

(** ** Topic resolution *)

Section TopicResolver.
Context (client : Client).

Lemma extract_topic_id_unfold ev st :
  (extract_topic_id client ev st).1 =
    match get_entity_reply client (clock st) with
    | Ok entity =>
        if ent_forum entity
        then Ok (topic_of_message (ev_message ev) true)
        else Ok None
    | Raise _ => Ok None
    end.
Proof.
  unfold extract_topic_id, try_except, bind, request, ret. simpl.
  destruct (get_entity_reply client (clock st)) as [entity|e]; [| done].
  by destruct (ent_forum entity).
Qed.

(** The reply header's part of the chain: the top-level id the flag
    selects first, then the other one, then the id of the message replied
    to. *)
Lemma topic_from_reply_chain (r : ReplyTo) :
  (∀ v, forum_topic r = true → getattr (top_msg_id r) = Some v →
        topic_from_reply r true = Some v)
  ∧ (∀ v, forum_topic r = true → hasattr (top_msg_id r) = false →
          getattr (reply_to_top_id r) = Some v →
          topic_from_reply r true = Some v)
  ∧ (∀ v, forum_topic r = false → getattr (reply_to_top_id r) = Some v →
          topic_from_reply r true = Some v)
  ∧ (∀ v, forum_topic r = false → hasattr (reply_to_top_id r) = false →
          getattr (top_msg_id r) = Some v →
          topic_from_reply r true = Some v)
  ∧ (getattr (top_msg_id r) = None → getattr (reply_to_top_id r) = None →
     topic_from_reply r true = getattr (reply_to_msg_id r)).
Proof.
  unfold topic_from_reply.
  destruct r as [flag [|top] [|rtop] [|rmsg]]; simpl;
    repeat split; intros; simplify_eq/=; try done;
    destruct flag; simplify_eq/=; done.
Qed.

Lemma amended_topic_correct (m : Message) :
  topic_of_message m true = amended_topic m.
Proof.
  unfold topic_of_message, amended_topic, topic_from_reply, header_topic.
  destruct (msg_topic_id m) as [|tid]; [| done].
  destruct (msg_topic m) as [|t]; [| done].
  destruct (msg_reply_to m) as [r|]; [| done]. simpl.
  destruct (forum_topic r), (top_msg_id r) as [|[top|]],
    (reply_to_top_id r) as [|[rtop|]], (reply_to_msg_id r) as [|rmsg];
    reflexivity.
Qed.

(** C3, as the specification words it, fails: the chain is not one in
    which the first success wins.  A forum message whose reply metadata
    holds none of the ids, as that of a reply to a story, resolves to no
    topic, where the stated chain goes on to the default topic 1; so does
    one whose metadata has the fields and no id in them. *)
Lemma extract_topic_id_not_first_success :
  stated_topic (header_message 51 "hi" story_header) = Some 1%Z
  ∧ (extract_topic_id forum_client
       (forum_event (header_message 51 "hi" story_header))
       initial_state).1 = Ok None
  ∧ stated_topic (header_message 52 "hi" empty_header) = Some 1%Z
  ∧ (extract_topic_id forum_client
       (forum_event (header_message 52 "hi" empty_header))
       initial_state).1 = Ok None
  ∧ (extract_topic_id forum_client
       (forum_event (header_message 51 "hi" story_header))
       initial_state).1
    ≠ Ok (stated_topic (header_message 51 "hi" story_header)).
Proof. repeat split; by vm_compute. Qed.

(** C3, amended.  Topic resolution never raises; a failed entity lookup
    gives no topic and a chat that is not a forum gives no topic.  In a
    forum the first source that is present decides, whether or not it
    gives an id: the [topic_id] field of the message if it has one, else
    its [topic] field if it has one; else, if there is reply metadata,
    the metadata alone, where a flagged header gives [top_msg_id] if it
    has that field and [reply_to_top_id] if not, an unflagged header
    [reply_to_top_id] if it has that field and [top_msg_id] if not, and
    the id of the message replied to is taken when that gives none, so
    that metadata without any id resolves to none and never to the post
    id or the default; else the message's own id for a topic-starting
    post; else 1.  This is what the stated chain gives for every message
    none of whose fields is there and empty and whose reply metadata, if
    any, holds an id. *)
Theorem extract_topic_id_degrades (ev : Event) (st : State) :
  (∃ topic st', extract_topic_id client ev st = (Ok topic, st'))
  ∧ (∀ e, get_entity_reply client (clock st) = Raise e →
          (extract_topic_id client ev st).1 = Ok None)
  ∧ (∀ entity, get_entity_reply client (clock st) = Ok entity →
               ent_forum entity = false →
               (extract_topic_id client ev st).1 = Ok None)
  ∧ (∀ entity, get_entity_reply client (clock st) = Ok entity →
               ent_forum entity = true →
               (extract_topic_id client ev st).1
               = Ok (amended_topic (ev_message ev)))
  ∧ (∀ entity, get_entity_reply client (clock st) = Ok entity →
               ent_forum entity = true →
               msg_topic_id (ev_message ev) = Absent →
               msg_topic (ev_message ev) = Absent →
               msg_reply_to (ev_message ev) = None →
               msg_post (ev_message ev) = false →
               (extract_topic_id client ev st).1 = Ok (Some 1%Z))
  ∧ (∀ entity r, get_entity_reply client (clock st) = Ok entity →
                 ent_forum entity = true →
                 msg_topic_id (ev_message ev) = Absent →
                 msg_topic (ev_message ev) = Absent →
                 msg_reply_to (ev_message ev) = Some r →
                 held (top_msg_id r) = None →
                 held (reply_to_top_id r) = None →
                 held (reply_to_msg_id r) = None →
                 (extract_topic_id client ev st).1 = Ok None)
  ∧ (∀ m, msg_topic_id m ≠ Present None → msg_topic m ≠ Present None →
          (∀ r, msg_reply_to m = Some r →
                top_msg_id r ≠ Present None ∧
                reply_to_top_id r ≠ Present None ∧
                reply_to_msg_id r ≠ Present None ∧
                first_success [held (top_msg_id r); held (reply_to_top_id r);
                               held (reply_to_msg_id r)] ≠ None) →
          amended_topic m = stated_topic m)
  ∧ (extract_topic_id forum_client some_event initial_state).1
    = Ok (Some 1%Z)
  ∧ (extract_topic_id refusing_client some_event initial_state).1 = Ok None.
Proof.
  split; [| split; [| split; [| split; [| split; [| split; [| split;
    [| split]]]]]]].
  - unfold extract_topic_id, try_except, bind, request, ret. simpl.
    destruct (get_entity_reply client (clock st)) as [entity|e]; [| eauto].
    destruct (ent_forum entity); simpl; eauto.
  - intros e He. by rewrite extract_topic_id_unfold, He.
  - intros entity He Hf. by rewrite extract_topic_id_unfold, He, Hf.
  - intros entity He Hf.
    by rewrite extract_topic_id_unfold, He, Hf, amended_topic_correct.
  - intros entity He Hf Htid Htopic Hreply Hpost.
    rewrite extract_topic_id_unfold, He, Hf, amended_topic_correct.
    unfold amended_topic. by rewrite Htid, Htopic, Hreply, Hpost.
  - intros entity r He Hf Htid Htopic Hreply Htop Hrtop Hrmsg.
    rewrite extract_topic_id_unfold, He, Hf, amended_topic_correct.
    unfold amended_topic, header_topic. rewrite Htid, Htopic, Hreply.
    destruct (forum_topic r), (top_msg_id r) as [|[top|]],
      (reply_to_top_id r) as [|[rtop|]], (reply_to_msg_id r) as [|[rmsg|]];
      done.
  - intros m Htid Htopic Hheader. unfold amended_topic, stated_topic.
    destruct (msg_topic_id m) as [|[tid|]]; [| done | done].
    destruct (msg_topic m) as [|[t|]]; [| done | done].
    destruct (msg_reply_to m) as [r|]; [| by destruct (msg_post m)].
    destruct (Hheader r eq_refl) as (Htop & Hrtop & Hrmsg & Hid).
    unfold header_topic.
    destruct (forum_topic r), (top_msg_id r) as [|[top|]],
      (reply_to_top_id r) as [|[rtop|]], (reply_to_msg_id r) as [|[rmsg|]];
      done.
  - by vm_compute.
  - by vm_compute.
Qed.

End TopicResolver.

(** ** Content formatting *)

Lemma append_empty_r s : s +:+ "" = s.
Proof. induction s as [|a s IH]; [done |]. by rewrite append_cons, IH. Qed.

Lemma append_assoc s t u : (s +:+ t) +:+ u = s +:+ t +:+ u.
Proof. induction s as [|a s IH]; [done |]. by rewrite !append_cons, IH. Qed.

Lemma sender_display_stated (s : Sender) :
  sender_id s ≠ Present None →
  sender_display (Some s) =
    stated_display (text_of (first_name s)) (text_of (last_name s))
                   (text_of (username s)) (getattr (sender_id s)).
Proof.
  intros Hid. unfold sender_display, stated_display, text_of.
  destruct (getattr (last_name s)) as [l|] eqn:El;
    destruct (getattr (username s)) as [u|] eqn:Eu; simpl;
    try destruct (truthy_str l) eqn:Hl; try destruct (truthy_str u) eqn:Hu;
    rewrite ?append_empty_r, ?append_assoc;
    destruct (truthy_str _) eqn:Hn; try done;
    destruct (sender_id s) as [|[n|]]; done.
Qed.

Lemma formatted_text_unfold client message is_reply linked_from st :
  formatted_text client message is_reply linked_from st =
    Some (marked_secondary (kind_of is_reply linked_from)
            (display_of (get_sender_reply client (clock st)))
            (body_or_placeholder message)).
Proof.
  unfold formatted_text, format_message_for_forwarding, try_except, bind,
    request, ret, display_of. simpl.
  assert ((if is_reply then reply_prefix
           else if truthy_text linked_from
                then link_prefix (fmt_opt_str linked_from) else "") =
          marked_prefix (kind_of is_reply linked_from)) as Hprefix.
  { unfold kind_of. destruct is_reply; [done |].
    destruct linked_from as [url|]; [| done]. simpl.
    by destruct (truthy_str url). }
  destruct (get_sender_reply client (clock st)) as [[s|]|e]; simpl;
    by rewrite Hprefix.
Qed.

(** C8, as the specification words it, fails on the text actually built:
    for a sender with only the first name "Amy" and the body "hello" the
    code produces ["**Amy:** hello"], not ["Amy: hello"]. *)
Lemma format_secondary_not_plain :
  formatted_text (quiet_client (Some (sender_named "Amy")))
                 (text_message 10 "hello") false None initial_state
    = Some "**Amy:** hello"
  ∧ formatted_text (quiet_client (Some (sender_named "Amy")))
                   (text_message 10 "hello") false None initial_state
    ≠ Some (stated_secondary KPlain "Amy" "hello").
Proof. split; [by vm_compute | by vm_compute]. Qed.

(** C8, amended.  Formatting a secondary message always succeeds and
    builds ["{prefix}**{senderDisplay}:** {bodyOrPlaceholder}"]; the prefix
    is ["⤴️ **In reply to:**\n"] for a reply, ["🔗 **Linked message:**
    {url}\n"] for a linked message that is not a reply, and empty
    otherwise.  The sender display is the first name, then a space and the
    last name, then [" (@username)"], each if present; without name fields
    it is ["User {id}"], and ["Unknown User"] without an id, without a
    sender, or when the sender cannot be fetched.  A sender with only the
    first name "Amy" gives ["**Amy:** {body}"], one without fields
    ["**Unknown User:** {body}"]. *)
Theorem format_message_marked (client : Client) (message : Message)
    (is_reply : bool) (linked_from : option string) (st : State) :
  (∃ content st',
     format_message_for_forwarding client message is_reply linked_from st
       = (Ok content, st') ∧
     content_text content =
       marked_secondary (kind_of is_reply linked_from)
         (display_of (get_sender_reply client (clock st)))
         (body_or_placeholder message) ∧
     content_media content = msg_media message ∧
     content_entities content = msg_entities message)
  ∧ (∀ s, sender_id s ≠ Present None →
          display_of (Ok (Some s)) =
            stated_display (text_of (first_name s)) (text_of (last_name s))
                           (text_of (username s)) (getattr (sender_id s)))
  ∧ (get_sender_reply client (clock st) = Ok (Some (sender_named "Amy")) →
     formatted_text client message false None st =
       Some ("**Amy:** " +:+ body_or_placeholder message))
  ∧ (get_sender_reply client (clock st) = Ok (Some sender_without_fields) →
     formatted_text client message false None st =
       Some ("**Unknown User:** " +:+ body_or_placeholder message)).
Proof.
  split; [| split; [| split]].
  - pose proof (formatted_text_unfold client message is_reply linked_from st)
      as Htext.
    unfold formatted_text in Htext.
    unfold format_message_for_forwarding, try_except, bind, request, ret in *.
    simpl in *.
    destruct (get_sender_reply client (clock st)) as [[s|]|e]; simpl in *;
      eexists _, _; (split; [reflexivity |]); simpl;
      (split; [by injection Htext | done]).
  - intros s Hid. by apply sender_display_stated.
  - intros Hs. by rewrite formatted_text_unfold, Hs.
  - intros Hs. by rewrite formatted_text_unfold, Hs.
Qed.

(** ** Running the monad *)

Section Keeps.
Context (I : State → Prop).

Lemma keeps_ret {A} (a : A) : keeps I (ret a).
Proof. by intros st H. Qed.

Lemma keeps_raise {A} (e : exn) : keeps I (raise (A:=A) e).
Proof. by intros st H. Qed.

Lemma keeps_get_state : keeps I get_state.
Proof. by intros st H. Qed.

Lemma keeps_bind {A B} (m : M A) (k : A → M B) :
  keeps I m → (∀ a, keeps I (k a)) → keeps I (bind m k).
Proof.
  intros Hm Hk st H. unfold bind. specialize (Hm st H).
  destruct (m st) as [[a|e] st']; simpl in *; [by apply Hk | done].
Qed.

Lemma keeps_try_except {A} (m : M A) (h : exn → M A) :
  keeps I m → (∀ e, keeps I (h e)) → keeps I (try_except m h).
Proof.
  intros Hm Hh st H. unfold try_except. specialize (Hm st H).
  destruct (m st) as [[a|e] st']; simpl in *; [done | by apply Hh].
Qed.

Lemma keeps_for_each {A} (xs : list A) (body : A → M unit) :
  (∀ x, keeps I (body x)) → keeps I (for_each xs body).
Proof.
  intros Hbody. induction xs as [|x xs IH]; simpl.
  - apply keeps_ret.
  - apply keeps_bind; [apply Hbody | by intros _].
Qed.

Lemma keeps_request {A} (c : Call) (reply : nat → result A) :
  (∀ st, I st → I (log_call c st)) → keeps I (request c reply).
Proof. intros Hc st H. by apply Hc. Qed.

Lemma keeps_modify (f : State → State) :
  (∀ st, I st → I (f st)) → keeps I (modify f).
Proof. intros Hf st H. by apply Hf. Qed.

End Keeps.

Lemma returns_try_except_ret {A} (m : M A) (a : A) :
  returns (try_except m (λ _, ret a)).
Proof.
  intros st. unfold try_except, ret.
  destruct (m st) as [[a'|e] st']; eauto.
Qed.

(** Splits a goal [keeps I m] along the structure of [m]; what is left are
    the requests and cache updates [m] is made of. *)
Ltac keeps_step :=
  match goal with
  | |- keeps _ (ret _) => apply keeps_ret
  | |- keeps _ (raise _) => apply keeps_raise
  | |- keeps _ get_state => apply keeps_get_state
  | |- keeps _ (bind _ _) => apply keeps_bind; [| intros ?]
  | |- keeps _ (try_except _ _) => apply keeps_try_except; [| intros ?]
  | |- keeps _ (for_each _ _) => apply keeps_for_each; intros ?
  | |- keeps _ (py_int ?c) => unfold py_int
  | |- keeps _ (match ?x with _ => _ end) => destruct x
  | |- keeps _ (let '(_, _) := ?x in _) => destruct x
  end.

Ltac keeps_split := repeat keeps_step.

Ltac keeps_prim HI :=
  match goal with
  | |- keeps _ (request _ _) =>
      apply keeps_request; intros; apply (stable_call _ HI); [reflexivity | assumption]
  | |- keeps _ (modify (set_chat_entities _)) =>
      apply keeps_modify; intros; by apply (stable_entities _ HI)
  | |- keeps _ (modify (set_chat_topics _)) =>
      apply keeps_modify; intros; by apply (stable_topics _ HI)
  | |- keeps _ (modify (set_no_forward_chats _)) =>
      apply keeps_modify; intros; by apply (stable_no_forward _ HI)
  | |- keeps _ (modify (set_resolved_message_links _)) =>
      apply keeps_modify; intros; by apply (stable_resolved _ HI)
  end.

Ltac keeps_auto HI := repeat (keeps_step || keeps_prim HI).

(** ** What every operation keeps *)

Section Stable.
Context (client : Client).
Context (I : State → Prop) (HI : stable I).

Lemma keeps_get_entity chat_id : keeps I (get_entity client chat_id).
Proof. unfold get_entity. keeps_auto HI. Qed.

Lemma keeps_get_chat_title chat_id : keeps I (get_chat_title client chat_id).
Proof.
  unfold get_chat_title. apply keeps_bind; [apply keeps_get_entity |].
  intros ?. keeps_auto HI.
Qed.

Lemma keeps_cache_topic chat_id topic_id name :
  keeps I (cache_topic chat_id topic_id name).
Proof. unfold cache_topic. keeps_auto HI. Qed.

Lemma keeps_topic_from_full_channel chat_id topic_id entity :
  keeps I (topic_from_full_channel client chat_id topic_id entity).
Proof.
  unfold topic_from_full_channel.
  repeat (keeps_step || keeps_prim HI || apply keeps_cache_topic).
Qed.

Lemma keeps_topic_from_starter chat_id topic_id entity :
  keeps I (topic_from_starter client chat_id topic_id entity).
Proof.
  unfold topic_from_starter.
  repeat (keeps_step || keeps_prim HI || apply keeps_cache_topic).
Qed.

Lemma keeps_topic_from_discussion chat_id topic_id entity :
  keeps I (topic_from_discussion client chat_id topic_id entity).
Proof.
  unfold topic_from_discussion.
  repeat (keeps_step || keeps_prim HI || apply keeps_cache_topic).
Qed.

Lemma keeps_get_topic_name chat_id topic_id :
  keeps I (get_topic_name client chat_id topic_id).
Proof.
  unfold get_topic_name.
  repeat (keeps_step || keeps_prim HI || apply keeps_cache_topic
          || apply keeps_get_entity || apply keeps_topic_from_full_channel
          || apply keeps_topic_from_starter
          || apply keeps_topic_from_discussion).
Qed.

Lemma keeps_can_forward_from_chat chat_id :
  keeps I (can_forward_from_chat client chat_id).
Proof.
  unfold can_forward_from_chat.
  repeat (keeps_step || keeps_prim HI || apply keeps_get_entity).
Qed.

End Stable.

(** ** Topic names *)

Lemma has_topic_cache_stable chat_id : stable (has_topic_cache chat_id).
Proof.
  split; unfold has_topic_cache; simpl; try done.
  intros c t st H. destruct (decide (c = chat_id)) as [->|Hne].
  - rewrite lookup_insert_eq. eauto.
  - by rewrite lookup_insert_ne.
Qed.

Lemma cache_topic_returns chat_id topic_id name st :
  has_topic_cache chat_id st →
  ∃ st', cache_topic chat_id topic_id name st = (Ok tt, st').
Proof.
  intros [topics Ht]. unfold cache_topic, bind, get_state, modify.
  rewrite Ht. eauto.
Qed.

Section TopicNames.
Context (client : Client).

(** The part of [get_topic_name] after the cache has been consulted and
    the chat's topic cache exists. *)
Lemma get_topic_name_lookups_return chat_id topic_id st :
  has_topic_cache chat_id st →
  ∃ found st',
    try_except
      (let! entity := get_entity client chat_id in
       let! first := topic_from_full_channel client chat_id topic_id entity in
       match first with
       | Some name => ret (Some name)
       | None =>
           let! second := topic_from_starter client chat_id topic_id entity in
           match second with
           | Some name => ret (Some name)
           | None => topic_from_discussion client chat_id topic_id entity
           end
       end)
      (λ _, ret None) st = (Ok found, st')
    ∧ has_topic_cache chat_id st'.
Proof.
  intros Hc.
  match goal with
  | |- ∃ found st', try_except ?body ?h st = _ ∧ _ =>
      destruct (returns_try_except_ret body None st) as (found & st' & Hm);
      assert (keeps (has_topic_cache chat_id) (try_except body h)) as Hk
  end.
  { pose proof (has_topic_cache_stable chat_id) as HI.
    repeat (keeps_step || keeps_prim HI
            || apply keeps_get_entity || apply keeps_topic_from_full_channel
            || apply keeps_topic_from_starter
            || apply keeps_topic_from_discussion); done. }
  exists found, st'. split; [exact Hm |].
  specialize (Hk st Hc). by rewrite Hm in Hk.
Qed.

Lemma get_topic_name_truthy chat_id (t : Z) st :
  t ≠ 0%Z →
  ∃ name st',
    get_topic_name client chat_id (Some t) st = (Ok (Some name), st').
Proof.
  intros Ht. unfold get_topic_name.
  rewrite (proj2 (Z.eqb_neq t 0) Ht).
  unfold bind at 1. unfold get_state at 1.
  destruct (cached_topic st chat_id t) as [name|]; [by eexists _, _ |].
  unfold bind at 1.
  set (init := match chat_topics st !! chat_id with
               | Some _ => ret tt
               | None => modify (set_chat_topics <[chat_id := ∅]>)
               end).
  assert (∃ st1, init st = (Ok tt, st1) ∧ has_topic_cache chat_id st1)
    as (st1 & -> & Hc).
  { subst init. unfold has_topic_cache.
    destruct (chat_topics st !! chat_id) as [topics|] eqn:E.
    - exists st. split; [done |]. rewrite E. eauto.
    - eexists. split; [reflexivity |]. simpl. rewrite lookup_insert_eq. eauto. }
  unfold bind at 1.
  destruct (get_topic_name_lookups_return chat_id t st1 Hc)
    as (found & st2 & -> & Hc2).
  destruct found as [name|]; [by eexists _, _ |].
  unfold bind.
  destruct (cache_topic_returns chat_id t ("Topic " +:+ pretty t) st2 Hc2)
    as (st3 & ->).
  by eexists _, _.
Qed.

Lemma get_topic_name_returns chat_id topic_id :
  returns (get_topic_name client chat_id topic_id).
Proof.
  intros st. destruct topic_id as [t|]; [| by eexists _, _].
  destruct (decide (t = 0%Z)) as [->|Ht]; [by eexists _, _ |].
  destruct (get_topic_name_truthy chat_id t st Ht) as (name & st' & Hn).
  eauto.
Qed.

(** C10. With a falsy topic id ([None] or [0]) [get_topic_name] returns
    [None] at once: no request is made and no cache is written, so the
    state is the one it started from and no fallback name is produced.
    With any other topic id it returns a string. *)
Theorem get_topic_name_falsy (chat_id : ChatId) (st : State) :
  get_topic_name client chat_id None st = (Ok None, st)
  ∧ get_topic_name client chat_id (Some 0%Z) st = (Ok None, st)
  ∧ (∀ t, t ≠ 0%Z →
          ∃ name st',
            get_topic_name client chat_id (Some t) st = (Ok (Some name), st'))
  ∧ (get_topic_name refusing_client (IntId (-1001234)) (Some 7%Z)
                    initial_state).1 = Ok (Some "Topic 7").
Proof.
  split; [done | split; [done | split]].
  - intros t Ht. by apply get_topic_name_truthy.
  - by vm_compute.
Qed.

End TopicNames.

(** ** Lookup failures *)




Section LookupFailures.
Context (client : Client).

Lemma get_entity_returns chat_id : returns (get_entity client chat_id).
Proof.
  intros st. unfold get_entity, bind, get_state.
  destruct (chat_entities st !! chat_id); [by eexists _, _ |].
  apply returns_try_except_ret.
Qed.




Lemma can_forward_denied chat_id st :
  chat_id ∈ no_forward_chats st →
  can_forward_from_chat client chat_id st = (Ok false, st).
Proof.
  intros Hin. unfold can_forward_from_chat, bind, get_state.
  by rewrite bool_decide_eq_true_2.
Qed.

Lemma can_forward_allowed chat_id st :
  chat_id ∉ no_forward_chats st →
  can_forward_from_chat client chat_id st =
    match get_entity client chat_id st with
    | (Ok (Some entity), st') =>
        if ent_is_channel entity && ent_noforwards entity
        then (Ok false, set_no_forward_chats (λ s, s ∪ {[chat_id]}) st')
        else (Ok true, st')
    | (Ok None, st') =>
        (Ok false, set_no_forward_chats (λ s, s ∪ {[chat_id]}) st')
    | (Raise e, st') => (Raise e, st')
    end.
Proof.
  intros Hout. unfold can_forward_from_chat, bind, get_state.
  rewrite bool_decide_eq_false_2 by done.
  destruct (get_entity client chat_id st) as [[[entity|]|e] st']; try done.
  by destruct (ent_is_channel entity && ent_noforwards entity).
Qed.




End LookupFailures.


Section LookupDegrades.
Context (client : Client).


End LookupDegrades.


(** ** What the pipeline keeps *)

Section StablePipeline.
Context (client : Client).
Context (extract_message_links : string → list LinkData) (rules : Rules).
Context (I : State → Prop) (HI : stable I).

Lemma keeps_format_message message is_reply linked_from :
  keeps I (format_message_for_forwarding client message is_reply linked_from).
Proof. unfold format_message_for_forwarding. keeps_auto HI. Qed.

Lemma keeps_extract_topic_id event : keeps I (extract_topic_id client event).
Proof. unfold extract_topic_id. keeps_auto HI. Qed.

Lemma keeps_process_replied_message message chat_id :
  keeps I (process_replied_message client message chat_id).
Proof.
  unfold process_replied_message.
  repeat (keeps_step || keeps_prim HI || apply keeps_format_message).
Qed.

Lemma keeps_fetch_linked_message link_data :
  keeps I (fetch_linked_message client link_data).
Proof.
  unfold fetch_linked_message, fetch_plain, fetch_in_topic, fetch_raw.
  repeat (keeps_step || keeps_prim HI || by apply keeps_get_entity).
Qed.

Lemma keeps_linked_contents message_links additional_content :
  keeps I (linked_contents client message_links additional_content).
Proof.
  revert additional_content.
  induction message_links as [|link_data rest IH]; intros acc; simpl.
  - apply keeps_ret.
  - apply keeps_bind; [| intros ?; apply IH].
    repeat (keeps_step || keeps_prim HI || apply keeps_fetch_linked_message
            || apply keeps_format_message).
Qed.

Lemma keeps_forward_as_text chat_id message contents topic_id to_chat to_topic
    include_source :
  keeps I (forward_as_text client chat_id message contents topic_id
                           to_chat to_topic include_source).
Proof.
  unfold forward_as_text.
  repeat (keeps_step || keeps_prim HI || by apply keeps_get_chat_title
          || by apply keeps_get_topic_name).
Qed.

(** Without permission to forward directly no target is forwarded
    natively. *)
Lemma keeps_forward_to_target_text chat_id message contents topic_id target :
  keeps I (forward_to_target client chat_id message contents topic_id
                             false target).
Proof.
  unfold forward_to_target. simpl.
  apply keeps_bind; [apply keeps_ret | intros ?].
  keeps_step; [apply keeps_ret | apply keeps_forward_as_text].
Qed.

Lemma keeps_forward_message_text event contents topic_id forwarding_info :
  keeps I (forward_message client event contents topic_id false
                           forwarding_info).
Proof.
  unfold forward_message. apply keeps_for_each. intros target.
  apply keeps_try_except; [| intros ?; apply keeps_ret].
  apply keeps_forward_to_target_text.
Qed.

Lemma keeps_process_and_forward_message_text event forwarding_info topic_id :
  keeps I (process_and_forward_message client extract_message_links event
             forwarding_info topic_id false).
Proof.
  unfold process_and_forward_message.
  repeat (keeps_step || apply keeps_process_replied_message
          || apply keeps_linked_contents
          || apply keeps_forward_message_text).
Qed.

(** With a property that also survives the native forward request, the
    whole pipeline keeps it. *)
Context (Hforward : ∀ to m st, I st → I (log_call (ForwardMessages to m) st)).

Lemma keeps_forward_directly chat_id message to_chat to_topic :
  keeps I (forward_directly client chat_id message to_chat to_topic).
Proof.
  unfold forward_directly.
  repeat (keeps_step || keeps_prim HI
          || (apply keeps_request; intros; by apply Hforward)).
Qed.

Lemma keeps_forward_to_target chat_id message contents topic_id
    can_forward_directly target :
  keeps I (forward_to_target client chat_id message contents topic_id
                             can_forward_directly target).
Proof.
  unfold forward_to_target.
  repeat (keeps_step || apply keeps_forward_directly
          || apply keeps_forward_as_text).
Qed.

Lemma keeps_forward_message event contents topic_id can_forward_directly
    forwarding_info :
  keeps I (forward_message client event contents topic_id can_forward_directly
                           forwarding_info).
Proof.
  unfold forward_message. apply keeps_for_each. intros target.
  apply keeps_try_except; [| intros ?; apply keeps_ret].
  apply keeps_forward_to_target.
Qed.

Lemma keeps_process_and_forward_message event forwarding_info topic_id
    can_forward_directly :
  keeps I (process_and_forward_message client extract_message_links event
             forwarding_info topic_id can_forward_directly).
Proof.
  unfold process_and_forward_message.
  repeat (keeps_step || apply keeps_process_replied_message
          || apply keeps_linked_contents || apply keeps_forward_message).
Qed.

Lemma keeps_handle_new_message event :
  keeps I (handle_new_message client extract_message_links rules event).
Proof.
  unfold handle_new_message, sender_id_of.
  repeat (keeps_step || keeps_prim HI || apply keeps_extract_topic_id
          || by apply keeps_can_forward_from_chat
          || apply keeps_process_and_forward_message).
Qed.

End StablePipeline.

(** ** Properties of the log and of the marked chats *)

Lemma keeps_answer {A} (I : State → Prop) (r : result A) : keeps I (answer r).
Proof. by intros st H. Qed.

Lemma forwarding_denied_stable chat_id : stable (forwarding_denied chat_id).
Proof.
  split; unfold forwarding_denied; simpl; try done.
  intros c st H. set_solver.
Qed.

Lemma logged_since_stable P st0 : stable (logged_since P st0).
Proof.
  split; unfold logged_since; simpl; try done.
  intros c st _ (before & c0 & after & Hc & HP).
  exists before, c0, (after ++ [c]). split; [| done].
  rewrite Hc. by rewrite <- !app_assoc.
Qed.

Lemma log_extends_stable st0 : stable (log_extends st0).
Proof.
  split; unfold log_extends; simpl; try done.
  intros c st _ [l Hl]. exists (l ++ [c]). rewrite Hl. by rewrite <- app_assoc.
Qed.

Lemma no_native_forward_stable st0 : stable (no_native_forward st0).
Proof.
  split; unfold no_native_forward; simpl; try done.
  intros c st Hc (l & Hl & Hall). exists (l ++ [c]). split.
  - rewrite Hl. by rewrite <- app_assoc.
  - apply Forall_app. split; [done | by apply Forall_singleton].
Qed.

Lemma no_native_forward_refl st : no_native_forward st st.
Proof. exists []. split; [by rewrite app_nil_r | done]. Qed.

Lemma log_extends_refl st : log_extends st st.
Proof. by exists []; rewrite app_nil_r. Qed.

Lemma stable_and I J : stable I → stable J → stable (λ st, I st ∧ J st).
Proof.
  intros HI HJ. split.
  - intros c st Hc [? ?]. split; by apply stable_call.
  - intros f st [? ?]. split; by apply stable_entities.
  - intros c t st [? ?]. split; by apply stable_topics.
  - intros c st [? ?]. split; by apply stable_no_forward.
  - intros f st [? ?]. split; by apply stable_resolved.
Qed.

Lemma logged_since_extends P st0 st1 st :
  log_extends st0 st1 → logged_since P st1 st → logged_since P st0 st.
Proof.
  intros [l Hl] (before & c & after & Hc & HP).
  exists (l ++ before), c, after. split; [| done].
  rewrite Hc, Hl. by rewrite <- !app_assoc.
Qed.

Lemma logged_since_weaken (P Q : Call → Prop) st0 st :
  (∀ c, P c → Q c) → logged_since P st0 st → logged_since Q st0 st.
Proof.
  intros HPQ (before & c & after & Hc & HP). exists before, c, after. eauto.
Qed.

Lemma logged_since_now (P : Call → Prop) c st :
  P c → logged_since P st (log_call c st).
Proof. intros HP. exists [], c, []. by split. Qed.

Lemma returns_keeps {A} (I : State → Prop) (m : M A) st :
  returns m → keeps I m → I st → ∃ a st', m st = (Ok a, st') ∧ I st'.
Proof.
  intros Hr Hk H. destruct (Hr st) as (a & st' & Hm).
  exists a, st'. split; [done |]. specialize (Hk st H). by rewrite Hm in Hk.
Qed.

(** ** Delivery to the targets *)

Lemma for_each_app {A} (xs ys : list A) (body : A → M unit) st :
  (∀ x, returns (body x)) →
  for_each (xs ++ ys) body st = for_each ys body (for_each xs body st).2
  ∧ (for_each xs body st).1 = Ok tt.
Proof.
  intros Hbody. revert st. induction xs as [|x xs IH]; intros st; simpl.
  - done.
  - unfold bind. destruct (Hbody x st) as ([] & st' & ->). apply IH.
Qed.

Section Delivery.
Context (client : Client).

Lemma get_chat_title_returns chat_id : returns (get_chat_title client chat_id).
Proof.
  intros st. unfold get_chat_title, bind.
  destruct (get_entity_returns client chat_id st) as ([entity|] & st' & ->);
    by eexists _, _.
Qed.

Lemma forward_as_text_sends chat_id message contents topic_id target st0 st :
  log_extends st0 st →
  sent_as_text target st0
    (forward_as_text client chat_id message contents topic_id
       (to_chat target) (to_topic target) (include_source target) st).2.
Proof.
  intros Hext. unfold forward_as_text. unfold bind at 1.
  destruct (returns_keeps (log_extends st0) (get_chat_title client chat_id) st)
    as (title & s1 & -> & H1);
    [apply get_chat_title_returns
    | by apply keeps_get_chat_title, log_extends_stable | done |].
  unfold bind at 1.
  match goal with
  | |- context [match ?src s1 with _ => _ end] =>
      assert (∃ si s2, src s1 = (Ok si, s2) ∧ log_extends st0 s2)
        as (si & s2 & -> & H2)
  end.
  { destruct (truthy_int topic_id); [| by eexists _, _].
    unfold bind.
    destruct (returns_keeps (log_extends st0)
                (get_topic_name client chat_id topic_id) s1)
      as (name & s2 & -> & H2);
      [apply get_topic_name_returns
      | by apply keeps_get_topic_name, log_extends_stable | done |].
    destruct (truthy_text name); by eexists _, _. }
  destruct (prepare_forwarding_content message si (include_source target)
              contents) as [[text media] additional].
  match goal with
  | |- sent_as_text _ _ (bind (request ?c ?reply) ?k s2).2 =>
      change (sent_as_text target st0
                (bind (answer (reply (clock s2))) k (log_call c s2)).2);
      assert (keeps (sent_as_text target st0)
                (bind (answer (reply (clock s2))) k)) as Hk
  end.
  { pose proof (logged_since_stable (sends_to target) st0) as HI.
    apply keeps_bind; [apply keeps_answer | intros _].
    keeps_auto HI. }
  apply Hk. eapply logged_since_extends; [exact H2 |].
  by apply logged_since_now.
Qed.

Lemma forward_directly_attempts chat_id message target st :
  let out := forward_directly client chat_id message
               (to_chat target) (to_topic target) st in
  attempted target st out.2 ∨ (out.1 = Ok false ∧ out.2 = st).
Proof.
  unfold forward_directly.
  destruct (int_of_string (to_chat target)) as [n|] eqn:En.
  - left. unfold py_int. rewrite En.
    match goal with
    | |- attempted _ _
           (try_except
              (bind (ret n) (λ to, bind (request _ ?reply) (@?k to))) ?h st).2 =>
        change (attempted target st
                  (try_except (bind (answer (reply (clock st))) (k n)) h
                     (log_call (ForwardMessages n message) st)).2);
        assert (keeps (attempted target st)
                  (try_except (bind (answer (reply (clock st))) (k n)) h))
          as Hk
    end.
    { cbv beta.
      pose proof (logged_since_stable (delivers_to target) st) as HI.
      repeat (keeps_step || keeps_prim HI || apply keeps_answer). }
    apply Hk. by apply logged_since_now.
  - right. unfold try_except, bind, py_int. rewrite En. by simpl.
Qed.

Lemma forward_directly_returns chat_id message to_chat to_topic :
  returns (forward_directly client chat_id message to_chat to_topic).
Proof.
  intros st. unfold forward_directly, try_except.
  match goal with |- context [match ?m st with _ => _ end] =>
    destruct (m st) as [[a|e] st']
  end; [by eexists _, _ |].
  destruct (is_forward_restriction e); by eexists _, _.
Qed.

(** One pass through the loop body with its [try]: it never raises, and
    a delivery to its target has been attempted when it is over. *)
Lemma forward_to_target_attempted chat_id message contents topic_id
    can_forward_directly target st :
  ∃ st',
    try_except
      (forward_to_target client chat_id message contents topic_id
                         can_forward_directly target)
      (λ _, ret tt) st = (Ok tt, st')
    ∧ attempted target st st'.
Proof.
  destruct (returns_try_except_ret
              (forward_to_target client chat_id message contents topic_id
                                 can_forward_directly target) tt st)
    as ([] & st' & Hrun).
  exists st'. split; [done |].
  replace st' with
    (try_except
       (forward_to_target client chat_id message contents topic_id
                          can_forward_directly target)
       (λ _, ret tt) st).2 by (by rewrite Hrun).
  clear Hrun st'.
  assert (∀ s, log_extends st s →
               attempted target st
                 (forward_as_text client chat_id message contents topic_id
                    (to_chat target) (to_topic target)
                    (include_source target) s).2) as Htext.
  { intros s Hs. eapply logged_since_weaken;
      [| by apply forward_as_text_sends].
    intros c Hc. by destruct c. }
  unfold forward_to_target, try_except. unfold bind at 1.
  destruct (can_forward_directly && bool_decide (contents = [])).
  - pose proof (forward_directly_attempts chat_id message target st) as Hd.
    destruct (forward_directly_returns chat_id message (to_chat target)
                (to_topic target) st) as (forwarded & s1 & Hrun).
    rewrite Hrun in *. simpl in Hd.
    destruct Hd as [Hatt | [Hfalse ->]].
    + destruct forwarded; simpl; [done |].
      pose proof (keeps_forward_as_text client (attempted target st)
                    (logged_since_stable _ _) chat_id message contents
                    topic_id (to_chat target) (to_topic target)
                    (include_source target) s1 Hatt) as Hk.
      by destruct (forward_as_text _ _ _ _ _ _ _ _ s1) as [[[]|e] s2].
    + injection Hfalse as ->.
      pose proof (Htext st (log_extends_refl st)) as Hk.
      by destruct (forward_as_text _ _ _ _ _ _ _ _ st) as [[[]|e] s2].
  - simpl. pose proof (Htext st (log_extends_refl st)) as Hk.
    by destruct (forward_as_text _ _ _ _ _ _ _ _ st) as [[[]|e] s2].
Qed.

End Delivery.

Section MultiTarget.
Context (client : Client).

Lemma forward_message_body_returns event contents topic_id can_forward_directly
    target :
  returns
    (try_except
       (forward_to_target client (ev_chat_id event) (ev_message event)
          contents topic_id can_forward_directly target)
       (λ _, ret tt)).
Proof. apply returns_try_except_ret. Qed.

Lemma forward_message_app event contents topic_id can_forward_directly
    before after st :
  forward_message client event contents topic_id can_forward_directly
                  (before ++ after) st
  = forward_message client event contents topic_id can_forward_directly after
      (forward_message client event contents topic_id can_forward_directly
                       before st).2
  ∧ (forward_message client event contents topic_id can_forward_directly
                     before st).1 = Ok tt.
Proof.
  unfold forward_message. apply for_each_app.
  intros target. apply forward_message_body_returns.
Qed.

Lemma forward_message_single event contents topic_id can_forward_directly
    target st :
  (forward_message client event contents topic_id can_forward_directly
                   [target] st).2
  = (try_except
       (forward_to_target client (ev_chat_id event) (ev_message event)
          contents topic_id can_forward_directly target)
       (λ _, ret tt) st).2.
Proof.
  unfold forward_message, for_each, bind.
  by destruct (try_except _ _ st) as [[[]|e] st'].
Qed.

(** C9. Delivering one message to a list of targets never raises, and no
    failure at one target keeps the later ones from being served: whatever
    the client answers, when the loop reaches a target a delivery to that
    target is attempted (a native forward or a reconstructed message), and
    the loop then goes on with the remaining targets.  With a client that
    refuses every forward and fails every send, three targets still get
    three sends in order. *)
Theorem forward_message_attempts_all (event : Event) (contents : list Content)
    (topic_id : option Z) (can_forward_directly : bool)
    (targets : list Forward) (st : State) :
  let deliver := forward_message client event contents topic_id
                                 can_forward_directly in
  (∃ st', deliver targets st = (Ok tt, st'))
  ∧ (∀ before target after,
       targets = before ++ target :: after →
       let reached := (deliver before st).2 in
       let served := (deliver [target] reached).2 in
       attempted target reached served ∧
       deliver targets st = deliver after served)
  ∧ send_targets
      (calls (forward_message refusing_client some_event [] None true
                [plain_target "111"; plain_target "222"; plain_target "333"]
                initial_state).2)
    = ["111"; "222"; "333"].
Proof.
  cbv zeta. split; [| split].
  - destruct (forward_message_app event contents topic_id can_forward_directly
                targets [] st) as [_ Hok].
    destruct (forward_message client event contents topic_id
                can_forward_directly targets st) as [[[]|e] st'];
      [by eexists | done].
  - intros before target after ->. split.
    + rewrite forward_message_single.
      destruct (forward_to_target_attempted client (ev_chat_id event)
                  (ev_message event) contents topic_id can_forward_directly
                  target
                  (forward_message client event contents topic_id
                     can_forward_directly before st).2) as (st' & -> & Hatt).
      done.
    + destruct (forward_message_app event contents topic_id
                  can_forward_directly before (target :: after) st) as [-> _].
      change (target :: after) with ([target] ++ after).
      by destruct (forward_message_app event contents topic_id
                     can_forward_directly [target] after
                     (forward_message client event contents topic_id
                        can_forward_directly before st).2) as [-> _].
  - by vm_compute.
Qed.

End MultiTarget.

(** ** The sticky forwarding-denied state *)

Section Sticky.
Context (client : Client).
Context (extract_message_links : string → list LinkData) (rules : Rules).

Lemma forward_directly_refused chat_id message to_chat to_topic st e n :
  int_of_string to_chat = Some n →
  forward_reply client (clock st) = Raise e →
  is_forward_restriction e = true →
  forward_directly client chat_id message to_chat to_topic st =
    (Ok false,
     set_no_forward_chats (λ s, s ∪ {[chat_id]})
       (log_call (ForwardMessages n message) st)).
Proof.
  intros Hn He Hr.
  unfold forward_directly, try_except, bind, py_int, request, modify, ret.
  rewrite Hn. simpl. rewrite He. simpl. by rewrite Hr.
Qed.

Lemma forward_message_flips event topic_id target rest st e n :
  int_of_string (to_chat target) = Some n →
  forward_reply client (clock st) = Raise e →
  is_forward_restriction e = true →
  forwarding_denied (ev_chat_id event)
    (forward_message client event [] topic_id true (target :: rest) st).2.
Proof.
  intros Hn He Hr.
  pose proof (forwarding_denied_stable (ev_chat_id event)) as HI.
  assert (∀ to m s, forwarding_denied (ev_chat_id event) s →
                    forwarding_denied (ev_chat_id event)
                      (log_call (ForwardMessages to m) s)) as Hf by done.
  unfold forward_message. simpl. unfold bind at 1.
  match goal with
  | |- context [match ?body st with _ => _ end] =>
      assert (forwarding_denied (ev_chat_id event) (body st).2) as Hbody
  end.
  { unfold try_except, forward_to_target. simpl. unfold bind at 1.
    rewrite (forward_directly_refused _ _ _ _ _ e n) by done.
    match goal with
    | |- context [forward_as_text ?c ?a ?m ?cs ?t ?tc ?tt ?i ?s] =>
        pose proof (keeps_forward_as_text c _ HI a m cs t tc tt i s) as Hk;
        destruct (forward_as_text c a m cs t tc tt i s) as [[[]|e'] s']
    end; simpl in *; apply Hk; unfold forwarding_denied; simpl; set_solver. }
  match goal with
  | |- context [match ?body st with _ => _ end] =>
      destruct (body st) as [[[]|e'] s1]
  end; simpl in *; [| done].
  by apply (keeps_forward_message client _ HI Hf event [] topic_id true rest).
Qed.

Lemma sender_id_of_returns message : returns (sender_id_of client message).
Proof. apply returns_try_except_ret. Qed.

Lemma extract_topic_id_returns event : returns (extract_topic_id client event).
Proof. apply returns_try_except_ret. Qed.

Lemma process_replied_message_returns message chat_id :
  returns (process_replied_message client message chat_id).
Proof. apply returns_try_except_ret. Qed.

Lemma linked_contents_returns message_links additional_content :
  returns (linked_contents client message_links additional_content).
Proof.
  revert additional_content.
  induction message_links as [|link_data rest IH]; intros acc st; simpl.
  - by eexists _, _.
  - unfold bind.
    match goal with
    | |- context [match try_except ?m ?h st with _ => _ end] =>
        destruct (returns_try_except_ret m acc st) as (acc' & st' & ->)
    end.
    apply IH.
Qed.

Lemma forward_to_target_text chat_id message contents topic_id target st :
  forward_to_target client chat_id message contents topic_id false target st
  = forward_as_text client chat_id message contents topic_id
      (to_chat target) (to_topic target) (include_source target) st.
Proof. reflexivity. Qed.

(** Without permission to forward directly every target of the list is
    served by the reconstruction path. *)
Lemma forward_message_text_sends event contents topic_id targets target st :
  target ∈ targets →
  sent_as_text target st
    (forward_message client event contents topic_id false targets st).2.
Proof.
  revert st. induction targets as [|t ts IH]; intros st Hin.
  - by apply elem_of_nil in Hin.
  - change (t :: ts) with ([t] ++ ts).
    destruct (forward_message_app client event contents topic_id false
                [t] ts st) as [-> _].
    rewrite forward_message_single.
    set (s1 := (try_except _ _ st).2).
    assert (sent_as_text t st s1 ∧ log_extends st s1) as [Hsent Hext].
    { subst s1. unfold try_except. rewrite forward_to_target_text.
      split.
      - pose proof (forward_as_text_sends client (ev_chat_id event)
                      (ev_message event) contents topic_id t st st
                      (log_extends_refl st)) as Hs.
        by destruct (forward_as_text _ _ _ _ _ _ _ _ st) as [[[]|e] s'].
      - pose proof (keeps_forward_as_text client _ (log_extends_stable st)
                      (ev_chat_id event) (ev_message event) contents topic_id
                      (to_chat t) (to_topic t) (include_source t) st
                      (log_extends_refl st)) as Hs.
        by destruct (forward_as_text _ _ _ _ _ _ _ _ st) as [[[]|e] s']. }
    apply elem_of_cons in Hin as [->|Hin].
    + by apply (keeps_forward_message_text client
                  (logged_since (sends_to t) st)
                  (logged_since_stable _ _)).
    + unfold sent_as_text.
      eapply logged_since_extends; [exact Hext | by apply IH].
Qed.

Lemma process_and_forward_message_text_sends event forwarding_info topic_id
    target st :
  hasattr (msg_text (ev_message event)) = true →
  target ∈ forwarding_info →
  sent_as_text target st
    (process_and_forward_message client extract_message_links event
       forwarding_info topic_id false st).2.
Proof.
  intros Htext Hin. unfold process_and_forward_message.
  unfold bind at 1.
  match goal with
  | |- context [match ?m st with _ => _ end] =>
      destruct (returns_keeps (log_extends st) m st) as (acc & s1 & -> & H1)
  end.
  { destruct (is_genuine_reply _ _); [| by intros ?; eexists _, _].
    intros s. unfold bind.
    destruct (process_replied_message_returns (ev_message event)
                (ev_chat_id event) s) as ([c|] & s' & ->); by eexists _, _. }
  { pose proof (log_extends_stable st) as HI.
    repeat (keeps_step || apply keeps_process_replied_message; try done). }
  { apply log_extends_refl. }
  unfold bind at 1.
  destruct (msg_text (ev_message event)) as [|text]; [done |].
  match goal with
  | |- context [match ?m s1 with _ => _ end] =>
      assert (∃ links, m s1 = (Ok links, s1)) as (links & ->)
        by (destruct (truthy_text text); by eexists)
  end.
  unfold bind at 1.
  destruct (returns_keeps (log_extends st)
              (linked_contents client links acc) s1)
    as (contents & s2 & -> & H2);
    [apply linked_contents_returns
    | by apply keeps_linked_contents, log_extends_stable | done |].
  unfold sent_as_text. eapply logged_since_extends; [exact H2 |].
  by apply forward_message_text_sends.
Qed.

Lemma decision_for_eq event st sender s1 topic s2 :
  sender_id_of client
    (set_extracted_text (ev_message event)
       (extract_message_text (ev_message event))) st = (Ok sender, s1) →
  extract_topic_id client
    {| ev_chat_id := ev_chat_id event;
       ev_message := set_extracted_text (ev_message event)
                       (extract_message_text (ev_message event)) |} s1
    = (Ok topic, s2) →
  decision_for client rules event st =
    should_forward rules (ev_chat_id event) topic sender.
Proof.
  intros Hs Ht. unfold decision_for, prepared. simpl.
  rewrite Hs. by rewrite Ht.
Qed.

(** How the handler runs on a message from a chat that is marked. *)
Lemma handle_new_message_denied_run event st :
  forwarding_denied (ev_chat_id event) st →
  ∃ topic s2,
    no_native_forward st s2 ∧ log_extends st s2 ∧
    handle_new_message client extract_message_links rules event st =
      match decision_for client rules event st with
      | [] => (Ok tt, s2)
      | _ :: _ =>
          process_and_forward_message client extract_message_links
            (prepared event) (decision_for client rules event st) topic
            false s2
      end.
Proof.
  intros Hden.
  set (I := λ s, (forwarding_denied (ev_chat_id event) s ∧
                  no_native_forward st s) ∧ log_extends st s).
  assert (stable I) as HI.
  { apply stable_and; [apply stable_and |].
    - apply forwarding_denied_stable.
    - apply no_native_forward_stable.
    - apply log_extends_stable. }
  assert (I st) as H0.
  { split; [split |]; [done | apply no_native_forward_refl
                       | apply log_extends_refl]. }
  destruct (returns_keeps I (sender_id_of client
              (set_extracted_text (ev_message event)
                 (extract_message_text (ev_message event)))) st)
    as (sender & s1 & Hsender & H1);
    [apply sender_id_of_returns
    | unfold sender_id_of; keeps_auto HI | done |].
  destruct (returns_keeps I (extract_topic_id client (prepared event)) s1)
    as (topic & s2 & Htopic & H2);
    [apply extract_topic_id_returns
    | by apply keeps_extract_topic_id | done |].
  exists topic, s2. split; [apply H2 | split; [apply H2 |]].
  rewrite (decision_for_eq event st sender s1 topic s2) by done.
  unfold handle_new_message. cbv zeta. unfold bind at 1. rewrite Hsender.
  unfold bind at 1. unfold prepared in Htopic. rewrite Htopic.
  destruct (should_forward rules (ev_chat_id event) topic sender)
    as [|t ts]; [done |].
  unfold bind. by rewrite can_forward_denied by apply H2.
Qed.

(** A message from a chat that is marked: the handler makes no native
    forward request, and every target of its decision is served by the
    reconstruction path. *)
Lemma handle_new_message_denied event st :
  forwarding_denied (ev_chat_id event) st →
  no_native_forward st
    (handle_new_message client extract_message_links rules event st).2
  ∧ (hasattr (msg_text (ev_message event)) = true →
     ∀ target, target ∈ decision_for client rules event st →
       sent_as_text target st
         (handle_new_message client extract_message_links rules event st).2).
Proof.
  intros Hden.
  destruct (handle_new_message_denied_run event st Hden)
    as (topic & s2 & Hquiet & Hext & ->).
  destruct (decision_for client rules event st) as [|t ts].
  - split; [done | by intros _ target ?%elem_of_nil].
  - split.
    + by apply (keeps_process_and_forward_message_text client
                  extract_message_links _ (no_native_forward_stable st)).
    + intros Htext target Hin. unfold sent_as_text.
      eapply logged_since_extends; [exact Hext |].
      by apply process_and_forward_message_text_sends.
Qed.

End Sticky.

Lemma later_than_stable st0 : stable (later_than st0).
Proof.
  split; unfold later_than; intros; (eapply rtc_r; [eassumption |]);
    constructor.
Qed.

Lemma later_than_forward st0 to m st :
  later_than st0 st → later_than st0 (log_call (ForwardMessages to m) st).
Proof. intros H. eapply rtc_r; [exact H | constructor]. Qed.

Lemma forwarding_denied_later chat_id st st' :
  later_than st st' → forwarding_denied chat_id st →
  forwarding_denied chat_id st'.
Proof.
  induction 1 as [|st1 st2 st3 Hstep _ IH]; [done |].
  intros H. apply IH. destruct Hstep; unfold forwarding_denied in *; simpl;
    set_solver.
Qed.

Section StickyRun.
Context (client : Client).
Context (extract_message_links : string → list LinkData) (rules : Rules).

Lemma handle_new_message_later_than event st0 st :
  later_than st0 st →
  later_than st0
    (handle_new_message client extract_message_links rules event st).2.
Proof.
  apply keeps_handle_new_message;
    [apply later_than_stable | apply later_than_forward].
Qed.

(** C4. Once a native forward of a message from chat X is refused with a
    forwarding-restriction error, X is marked as rejecting forwards, and
    the mark stays for the rest of the run: in every later state of the
    process, so after any further events have been handled, X is still
    marked, [can_forward_from_chat] answers [false] for it without asking
    the client, and the handler of a message from X makes no native
    forward request; every target of its decision is served by the
    reconstruction path. *)
Theorem forwarding_denied_is_sticky (event : Event) (topic_id : option Z)
    (before : list Forward) (target : Forward) (rest : list Forward)
    (st : State) (e : exn) (n : Z)
    (Hchat : int_of_string (to_chat target) = Some n)
    (Hrefused :
       forward_reply client
         (clock (forward_message client event [] topic_id true before st).2)
       = Raise e)
    (Hclass : is_forward_restriction e = true) :
  let X := ev_chat_id event in
  let flipped :=
    (forward_message client event [] topic_id true
                     (before ++ target :: rest) st).2 in
  forwarding_denied X flipped
  ∧ (∀ (now : State) (event' : Event),
       later_than flipped now →
       later_than flipped
         (handle_new_message client extract_message_links rules event' now).2)
  ∧ ∀ (now : State) (event' : Event),
      later_than flipped now →
      ev_chat_id event' = X →
      let after :=
        (handle_new_message client extract_message_links rules event' now).2 in
      forwarding_denied X now
      ∧ can_forward_from_chat client X now = (Ok false, now)
      ∧ no_native_forward now after
      ∧ (hasattr (msg_text (ev_message event')) = true →
         ∀ t, t ∈ decision_for client rules event' now →
              sent_as_text t now after).
Proof.
  cbv zeta.
  assert (forwarding_denied (ev_chat_id event)
            (forward_message client event [] topic_id true
               (before ++ target :: rest) st).2) as Hflip.
  { destruct (forward_message_app client event [] topic_id true before
                (target :: rest) st) as [-> _].
    by apply (forward_message_flips client event topic_id target rest _ e n). }
  split; [exact Hflip |].
  split; [intros now event'; apply handle_new_message_later_than |].
  intros now event' Hlater Hchat'.
  pose proof (forwarding_denied_later _ _ _ Hlater Hflip) as Hnow.
  split; [exact Hnow |].
  split; [by apply can_forward_denied |].
  rewrite <- Hchat' in Hnow.
  by apply handle_new_message_denied.
Qed.

End StickyRun.

(** The refused forward of the scenario marks the chat. *)
Lemma forwarding_denied_is_sticky_witness :
  forwarding_denied (IntId (-1001234))
    (forward_message refusing_client some_event [] None true
                     [plain_target "999"] initial_state).2.
Proof.
  refine (proj1 (forwarding_denied_is_sticky refusing_client (λ _, [])
                   scenario_rules some_event None [] (plain_target "999") []
                   initial_state ForbiddenError 999 _ _ _)).
  - vm_compute. reflexivity.
  - vm_compute. reflexivity.
  - reflexivity.
Defined.

(** * Further properties of the code *)

(** ** Rule matching, continued *)

Lemma passing_sublist user targets :
  passing user targets `sublist_of` passing None targets.
Proof.
  unfold passing. apply fmap_sublist.
  induction targets as [|t ts IH]; [done |].
  rewrite !filter_cons.
  assert (¬ excluded None t) as Hn by (by intros [_ [u [? _]]]).
  rewrite (decide_True (P := ¬ excluded None t)) by done.
  destruct (decide (¬ excluded user t)).
  - by apply sublist_skip.
  - by apply sublist_cons.
Qed.

Lemma passing_unknown targets : passing None targets = forward_of <$> targets.
Proof.
  unfold passing. f_equal.
  induction targets as [|t ts IH]; [done |].
  rewrite filter_cons, decide_True; [by rewrite IH |].
  by intros [_ [u [? _]]].
Qed.

(** X1. An unknown sender passes every user filter: for an unknown sender
    the decision lists every wildcard and topic target of the matched
    entry, and the decision for any known sender is a sublist of it. *)
Theorem unknown_sender_gets_all (rules : Rules) (c : ChatId)
    (topic user : option Z) :
  should_forward rules c topic user
    `sublist_of` should_forward rules c topic None
  ∧ (∀ entry,
       find_matching_rules rules (normalize_chat_id c) = Some entry →
       should_forward rules c topic None =
         forward_of <$> (wildcard_targets entry ++ topic_targets entry topic)).
Proof.
  split.
  - destruct (find_matching_rules rules (normalize_chat_id c)) as [entry|] eqn:E.
    + rewrite !(should_forward_matched _ _ _ _ _ E).
      apply sublist_app; apply passing_sublist.
    + unfold should_forward. by rewrite E.
  - intros entry E. rewrite (should_forward_matched _ _ _ _ _ E).
    by rewrite !passing_unknown, fmap_app.
Qed.

(** X2. Topic rules only add to the chat-level rules: the decision taken
    without a topic id is the beginning of the decision taken with any
    topic id, and the two agree when the matched entry has no list under
    that topic. *)
Theorem topic_rules_only_add (rules : Rules) (c : ChatId) (t : Z)
    (user : option Z) :
  should_forward rules c None user
    `prefix_of` should_forward rules c (Some t) user
  ∧ (∀ entry,
       find_matching_rules rules (normalize_chat_id c) = Some entry →
       entry !! pretty t = None →
       should_forward rules c (Some t) user = should_forward rules c None user).
Proof.
  split.
  - destruct (find_matching_rules rules (normalize_chat_id c)) as [entry|] eqn:E.
    + rewrite !(should_forward_matched _ _ _ _ _ E). simpl.
      unfold passing at 2. simpl. rewrite app_nil_r. by eexists.
    + unfold should_forward. rewrite E. by exists [].
  - intros entry E Ht. rewrite !(should_forward_matched _ _ _ _ _ E).
    unfold topic_targets. by rewrite Ht.
Qed.

(** X3. A decision never names a destination the rule table does not
    hold: each of its elements has [include_source] set and is built from
    a target that stands, under ["*"] or under the topic id's text form,
    in the entry of a candidate key of the chat, and that the sender
    passes. *)
Theorem decision_from_matched_targets (rules : Rules) (c : ChatId)
    (topic user : option Z) :
  Forall
    (λ f, include_source f = true ∧
          ∃ k entry key targets target,
            k ∈ normalize_chat_id c ∧ rules !! k = Some entry ∧
            entry !! key = Some targets ∧ target ∈ targets ∧
            (key = "*" ∨ ∃ t, topic = Some t ∧ key = pretty t) ∧
            ¬ excluded user target ∧ f = forward_of target)
    (should_forward rules c topic user).
Proof.
  destruct (find_matching_rules rules (normalize_chat_id c)) as [entry|] eqn:E.
  - rewrite (should_forward_matched _ _ _ _ _ E).
    destruct (find_matching_rules_Some _ _ _ E) as (i & k & Hi & Hk & _).
    assert (k ∈ normalize_chat_id c) as Hin
      by (apply list_elem_of_lookup; eauto).
    apply Forall_app. split; apply Forall_forall; intros f Hf;
      unfold passing in Hf; apply list_elem_of_fmap in Hf as (target & -> & Ht);
      apply list_elem_of_filter in Ht as [Hpass Ht];
      (split; [done |]).
    + unfold wildcard_targets in Ht.
      destruct (entry !! "*") as [ws|] eqn:Ew; [| by apply elem_of_nil in Ht].
      exists k, entry, "*", ws, target. eauto 10.
    + unfold topic_targets in Ht.
      destruct topic as [t|]; [| by apply elem_of_nil in Ht].
      destruct (entry !! pretty t) as [ts|] eqn:Et;
        [| by apply elem_of_nil in Ht].
      exists k, entry, (pretty t), ts, target. eauto 10.
  - unfold should_forward. rewrite E. constructor.
Qed.

(** X4. A rule stored under the prefixed key ["-100" + d] is found for the
    prefixed form of the chat id whatever else the table holds, for the
    bare form [d] when the table has no key [d], and for the single-minus
    form ["-" + d] when the table has no key ["-" + d] and [d] does not
    itself begin with ["100"]. *)
Theorem prefixed_key_found (rules : Rules) (d : string) (entry : RuleEntry)
    (topic user : option Z)
    (Hbare : ∀ rest, d ≠ "-" +:+ rest)
    (Hkey : rules !! ("-100" +:+ d) = Some entry) :
  let decision :=
    passing user (wildcard_targets entry) ++
    passing user (topic_targets entry topic) in
  should_forward rules (StrId ("-100" +:+ d)) topic user = decision
  ∧ (rules !! d = None →
     should_forward rules (StrId d) topic user = decision)
  ∧ (rules !! ("-" +:+ d) = None → (∀ rest, d ≠ "100" +:+ rest) →
     should_forward rules (StrId ("-" +:+ d)) topic user = decision).
Proof.
  cbv zeta.
  assert (lstrip "-"%char d = d) as Hstrip.
  { destruct d as [|a d]; [done |]. simpl.
    destruct (Ascii.eqb a "-"%char) eqn:Ea; [| done].
    apply Ascii.eqb_eq in Ea as ->. by destruct (Hbare d). }
  split; [| split].
  - apply should_forward_matched.
    rewrite (normalize_prefixed d (StrId ("-100" +:+ d))) by done.
    simpl. by rewrite Hkey.
  - intros Hd. apply should_forward_matched.
    rewrite normalize_unprefixed.
    + simpl. by rewrite Hd, Hstrip, Hkey.
    + simpl. intros rest Hr. apply (Hbare ("100" +:+ rest)). by rewrite Hr.
  - intros Hd Hno. apply should_forward_matched.
    rewrite normalize_unprefixed.
    + simpl. rewrite Hd.
      change ("-" +:+ d) with (String "-"%char d). simpl.
      change ("" +:+ d) with d. by rewrite Hstrip, Hkey.
    + simpl. intros rest Hr. apply (Hno rest).
      change ("-" +:+ d) with (String "-"%char d) in Hr.
      change ("-100" +:+ rest) with (String "-"%char ("100" +:+ rest)) in Hr.
      by injection Hr.
Qed.

(** The scenario table serves the chat 1234 in its three forms. *)
Lemma prefixed_key_found_witness :
  should_forward scenario_rules (StrId "-1001234") None None
    = [mkForward "999" None true]
  ∧ should_forward scenario_rules (StrId "1234") None None
    = [mkForward "999" None true]
  ∧ should_forward scenario_rules (StrId "-1234") None None
    = [mkForward "999" None true].
Proof.
  assert (∀ rest, "1234" ≠ "-" +:+ rest) as Hbare by (by intros rest).
  assert (∀ rest, "1234" ≠ "100" +:+ rest) as Hno by (by intros rest).
  pose proof (prefixed_key_found scenario_rules "1234"
                {[ "*" := [mkTarget "999" None None] ]} None None
                Hbare eq_refl) as (H1 & H2 & H3).
  split; [exact H1 | split; [exact (H2 eq_refl) | exact (H3 eq_refl Hno)]].
Defined.

(** ** The entity cache *)

Lemma ensures_try_ret {A} (I : State → Prop) (m : M A) (a0 : A)
    (Q : result A → State → Prop) :
  ensures I m (λ r s, match r with
                      | Ok a => Q (Ok a) s
                      | Raise _ => Q (Ok a0) s
                      end) →
  ensures I (try_except m (λ _, ret a0)) Q.
Proof.
  intros Hm st H. unfold try_except. specialize (Hm st H).
  by destruct (m st) as [[a|e] st'].
Qed.

Lemma keeps_True {A} (m : M A) : keeps (λ _, True) m.
Proof. by intros st _. Qed.

Section EntityCache.
Context (client : Client).

Lemma get_entity_hit chat_id entity st :
  chat_entities st !! chat_id = Some entity →
  get_entity client chat_id st = (Ok (Some entity), st).
Proof. intros H. unfold get_entity, bind, get_state. by rewrite H. Qed.

Lemma get_entity_found chat_id entity st :
  (get_entity client chat_id st).1 = Ok (Some entity) →
  chat_entities (get_entity client chat_id st).2 !! chat_id = Some entity.
Proof.
  unfold get_entity, bind, get_state, try_except, request, modify, ret,
    py_int, raise.
  destruct (chat_entities st !! chat_id) as [cached|] eqn:E.
  { simpl. by intros [= <-]. }
  destruct (startswith "-100" (py_str chat_id));
    [| destruct (startswith "@" (py_str chat_id))];
    destruct chat_id as [n|s]; simpl;
    try destruct (int_of_string s); simpl;
    destruct (get_entity_reply client (clock st)); simpl;
    intros [=]; subst; by rewrite lookup_insert_eq.
Qed.

Lemma get_entity_frame chat_id st :
  chat_topics (get_entity client chat_id st).2 = chat_topics st
  ∧ no_forward_chats (get_entity client chat_id st).2 = no_forward_chats st
  ∧ resolved_message_links (get_entity client chat_id st).2
    = resolved_message_links st.
Proof.
  unfold get_entity, bind, get_state, try_except, request, modify, ret,
    py_int, raise.
  destruct (chat_entities st !! chat_id) as [cached|]; [done |].
  destruct (startswith "-100" (py_str chat_id));
    [| destruct (startswith "@" (py_str chat_id))];
    destruct chat_id as [n|s]; simpl;
    try destruct (int_of_string s); simpl;
    try destruct (get_entity_reply client (clock st)); simpl; done.
Qed.

Lemma get_entity_one_request chat_id st :
  calls (get_entity client chat_id st).2 = calls st
  ∨ ∃ who, calls (get_entity client chat_id st).2 = calls st ++ [GetEntity who].
Proof.
  unfold get_entity, bind, get_state, try_except, request, modify, ret,
    py_int, raise.
  destruct (chat_entities st !! chat_id) as [cached|]; [by left |].
  destruct (startswith "-100" (py_str chat_id));
    [| destruct (startswith "@" (py_str chat_id))];
    destruct chat_id as [n|s]; simpl;
    try destruct (int_of_string s); simpl;
    try destruct (get_entity_reply client (clock st)); simpl; eauto.
Qed.

End EntityCache.

(** X5. Entity lookups are memoized: a lookup makes at most one request,
    and once it has found an entity, the entity is in the cache under the
    identifier asked for, so that asking again, whatever the client would
    answer now, gives the same entity without a request and leaves the
    state as it is; the chat title is then read from that entity. *)
Theorem get_entity_memoized (client client' : Client) (chat_id : ChatId)
    (st : State) (entity : Entity)
    (Hfound : (get_entity client chat_id st).1 = Ok (Some entity)) :
  let st' := (get_entity client chat_id st).2 in
  (calls st' = calls st ∨ ∃ who, calls st' = calls st ++ [GetEntity who])
  ∧ chat_entities st' !! chat_id = Some entity
  ∧ get_entity client' chat_id st' = (Ok (Some entity), st')
  ∧ get_chat_title client' chat_id st' =
      (Ok (default ("Chat " +:+ py_str chat_id) (ent_title entity)), st').
Proof.
  cbv zeta. pose proof (get_entity_found client chat_id entity st Hfound) as Hc.
  split; [apply get_entity_one_request |].
  split; [done |].
  split; [by apply get_entity_hit |].
  unfold get_chat_title, bind. by rewrite (get_entity_hit client' _ entity).
Qed.

(** A channel found once is served from the cache by a client that would
    now refuse. *)
Lemma get_entity_memoized_witness :
  get_entity refusing_client (IntId 555)
    (get_entity (constant_client (Ok some_channel) (Ok None) (Ok None) (Ok tt))
                (IntId 555) initial_state).2
  = (Ok (Some some_channel),
     (get_entity (constant_client (Ok some_channel) (Ok None) (Ok None) (Ok tt))
                 (IntId 555) initial_state).2).
Proof.
  refine (proj1 (proj2 (proj2
    (get_entity_memoized
       (constant_client (Ok some_channel) (Ok None) (Ok None) (Ok tt))
       refusing_client (IntId 555) initial_state some_channel _)))).
  vm_compute. reflexivity.
Defined.

(** ** Permission to forward *)

(** X6. The answer of [can_forward_from_chat] never raises and is stable.
    When it is [False] the chat is marked afterwards; when it is [True]
    the chat was not marked, nothing has been marked, and the chat's
    entity is cached and is not a channel with the no-forwards flag.
    Asking again in the state reached gives the same answer without a
    request, whatever the client would answer now. *)
Theorem can_forward_answer_stable (client client' : Client) (chat_id : ChatId)
    (st : State) :
  let out := can_forward_from_chat client chat_id st in
  (∃ b, out.1 = Ok b ∧
        can_forward_from_chat client' chat_id (out.2) = (Ok b, out.2))
  ∧ (out.1 = Ok false → chat_id ∈ no_forward_chats (out.2))
  ∧ (out.1 = Ok true →
     (chat_id ∉ no_forward_chats st) ∧
     no_forward_chats (out.2) = no_forward_chats st ∧
     ∃ entity, chat_entities (out.2) !! chat_id = Some entity ∧
               ent_is_channel entity && ent_noforwards entity = false).
Proof.
  cbv zeta.
  destruct (decide (chat_id ∈ no_forward_chats st)) as [Hin|Hout].
  { rewrite can_forward_denied by done. simpl.
    split; [| split; [done | done]].
    exists false. split; [done | by apply can_forward_denied]. }
  rewrite can_forward_allowed by done.
  pose proof (get_entity_found client chat_id) as Hfound.
  destruct (get_entity_frame client chat_id st) as (Htop & Hnf & Hres).
  destruct (get_entity_returns client chat_id st) as (r & st1 & Hrun).
  rewrite Hrun in *. simpl in *.
  assert (∀ s : State, chat_id ∈ no_forward_chats
                         (set_no_forward_chats (λ s, s ∪ {[chat_id]}) s))
    as Hmark
    by (intros s; simpl; apply elem_of_union; right; by apply elem_of_singleton).
  destruct r as [entity|].
  - specialize (Hfound entity st). rewrite Hrun in Hfound.
    specialize (Hfound eq_refl). simpl in Hfound.
    destruct (ent_is_channel entity && ent_noforwards entity) eqn:Hflag; simpl.
    + split; [| split; [intros _; apply Hmark | done]].
      exists false. split; [done | by apply can_forward_denied].
    + split; [| split; [done |]].
      * exists true. split; [done |].
        rewrite can_forward_allowed by (by rewrite Hnf).
        rewrite (get_entity_hit client' _ entity) by done. by rewrite Hflag.
      * intros _. split; [done |]. split; [done |]. by exists entity.
  - simpl. split; [| split; [intros _; apply Hmark | done]].
    exists false. split; [done | by apply can_forward_denied].
Qed.

(** ** The topic-name cache *)

Section TopicCache.
Context (client : Client) (chat_id : ChatId) (topic_id : Z).

Lemma caches_ret_none : caches_result chat_id topic_id (ret None).
Proof. by intros st name. Qed.

Lemma caches_bind {A} (m : M A) (k : A → M (option string)) :
  (∀ a, caches_result chat_id topic_id (k a)) →
  caches_result chat_id topic_id (bind m k).
Proof.
  intros Hk st name. unfold bind.
  destruct (m st) as [[a|e] st']; [apply Hk | done].
Qed.

Lemma caches_try (m : M (option string)) :
  caches_result chat_id topic_id m →
  caches_result chat_id topic_id (try_except m (λ _, ret None)).
Proof.
  intros Hm st name. unfold try_except. specialize (Hm st name).
  by destruct (m st) as [[a|e] st'].
Qed.

Lemma caches_read :
  caches_result chat_id topic_id
    (let! st := get_state in ret (cached_topic st chat_id topic_id)).
Proof. intros st name. simpl. by intros [= ->]. Qed.

Lemma caches_write name :
  caches_result chat_id topic_id
    (do! cache_topic chat_id topic_id name in ret (Some name)).
Proof.
  intros st name'. unfold cache_topic, bind, get_state, modify, raise, ret.
  destruct (chat_topics st !! chat_id) as [topics|]; simpl; [| done].
  intros [= <-]. unfold cached_topic. simpl.
  by rewrite !lookup_insert_eq.
Qed.

Lemma caches_topic_from_full_channel entity :
  caches_result chat_id topic_id
    (topic_from_full_channel client chat_id topic_id entity).
Proof.
  unfold topic_from_full_channel. apply caches_try.
  destruct entity as [e|]; [| apply caches_ret_none].
  destruct (ent_is_channel e && ent_megagroup e); [| apply caches_ret_none].
  apply caches_bind. intros [topics|]; [| apply caches_ret_none].
  apply caches_bind. intros _. apply caches_read.
Qed.

Lemma caches_topic_from_starter entity :
  caches_result chat_id topic_id
    (topic_from_starter client chat_id topic_id entity).
Proof.
  unfold topic_from_starter. apply caches_try, caches_bind.
  intros [|message rest]; [apply caches_ret_none |].
  destruct (msg_title message) as [title|]; [| apply caches_ret_none].
  destruct (truthy_str title); [apply caches_write | apply caches_ret_none].
Qed.

Lemma caches_topic_from_discussion entity :
  caches_result chat_id topic_id
    (topic_from_discussion client chat_id topic_id entity).
Proof.
  unfold topic_from_discussion. apply caches_try, caches_bind.
  intros [messages|]; [| apply caches_ret_none].
  destruct (first_titled messages); [apply caches_write | apply caches_ret_none].
Qed.

Lemma caches_get_topic_name_lookups :
  caches_result chat_id topic_id
    (try_except
       (let! entity := get_entity client chat_id in
        let! first := topic_from_full_channel client chat_id topic_id entity in
        match first with
        | Some name => ret (Some name)
        | None =>
            let! second := topic_from_starter client chat_id topic_id entity in
            match second with
            | Some name => ret (Some name)
            | None => topic_from_discussion client chat_id topic_id entity
            end
        end)
       (λ _, ret None)).
Proof.
  apply caches_try, caches_bind. intros entity s0 name0.
  destruct (bind _ _ s0) as [r s'] eqn:Hrun. simpl. intros ->.
  unfold bind at 1 in Hrun.
  pose proof (caches_topic_from_full_channel entity s0) as H1.
  destruct (topic_from_full_channel client chat_id topic_id entity s0)
    as [[[first|]|e] s1]; simpl in *; [| | done].
  { injection Hrun as -> ->. by apply H1. }
  unfold bind at 1 in Hrun.
  pose proof (caches_topic_from_starter entity s1) as H2.
  destruct (topic_from_starter client chat_id topic_id entity s1)
    as [[[second|]|e] s2]; simpl in *; [| | done].
  { injection Hrun as -> ->. by apply H2. }
  pose proof (caches_topic_from_discussion entity s2 name0) as H3.
  rewrite Hrun in H3. by apply H3.
Qed.

Lemma caches_get_topic_name :
  caches_result chat_id topic_id
    (get_topic_name client chat_id (Some topic_id)).
Proof.
  intros st name.
  destruct (get_topic_name client chat_id (Some topic_id) st) as [r s']
    eqn:Hrun.
  simpl. intros ->. unfold get_topic_name in Hrun.
  destruct (topic_id =? 0)%Z; [done |].
  unfold bind at 1 in Hrun. unfold get_state at 1 in Hrun.
  destruct (cached_topic st chat_id topic_id) as [cached|] eqn:E.
  { by injection Hrun as -> ->. }
  unfold bind at 1 in Hrun.
  match type of Hrun with
  | context [match ?init st with _ => _ end] =>
      destruct (init st) as [[[]|e] s0]; [| done]
  end.
  unfold bind at 1 in Hrun.
  pose proof (caches_get_topic_name_lookups s0) as Hblock.
  match type of Hrun with
  | context [match try_except ?m ?h s0 with _ => _ end] =>
      destruct (try_except m h s0) as [[[found|]|e] s1]; simpl in *; [| | done]
  end.
  { injection Hrun as -> ->. by apply Hblock. }
  pose proof (caches_write ("Topic " +:+ pretty topic_id) s1 name) as Hw.
  rewrite Hrun in Hw. by apply Hw.
Qed.

End TopicCache.

(** X7. A topic name, once returned, is the cached one: whichever lookup
    produced it, the synthetic fallback included, it stands in the topic
    cache afterwards, and asking again in the state reached returns the
    same name without any request and without changing the state,
    whatever the client would answer now. *)
Theorem get_topic_name_cached (client client' : Client) (chat_id : ChatId)
    (topic_id : Z) (st : State) (name : string)
    (Hname : (get_topic_name client chat_id (Some topic_id) st).1
             = Ok (Some name)) :
  let st' := (get_topic_name client chat_id (Some topic_id) st).2 in
  cached_topic st' chat_id topic_id = Some name
  ∧ get_topic_name client' chat_id (Some topic_id) st' = (Ok (Some name), st').
Proof.
  cbv zeta.
  pose proof (caches_get_topic_name client chat_id topic_id st name Hname) as Hc.
  split; [exact Hc |].
  assert (topic_id ≠ 0%Z) as Hne.
  { intros ->. by simpl in Hname. }
  unfold get_topic_name at 1. rewrite (proj2 (Z.eqb_neq _ _) Hne).
  unfold bind, get_state. by rewrite Hc.
Qed.

(** The fallback name of a topic no lookup resolves is served from the
    cache afterwards. *)
Lemma get_topic_name_cached_witness :
  cached_topic
    (get_topic_name refusing_client (IntId (-1001234)) (Some 7%Z)
                    initial_state).2
    (IntId (-1001234)) 7 = Some "Topic 7".
Proof.
  refine (proj1 (get_topic_name_cached refusing_client refusing_client
                   (IntId (-1001234)) 7 initial_state "Topic 7" _)).
  vm_compute. reflexivity.
Defined.

(** ** The caches only grow *)

Lemma grows_refl st : grows st st.
Proof. repeat split; try done. Qed.








Section Grows.
Context (client : Client).
Context (extract_message_links : string → list LinkData) (rules : Rules).



End Grows.



Section GrowsPipeline.
Context (client : Client).
Context (extract_message_links : string → list LinkData) (rules : Rules).
Context (st0 : State).


End GrowsPipeline.

Section GrowsDelivery.
Context (client : Client).
Context (extract_message_links : string → list LinkData) (rules : Rules).
Context (st0 : State).



End GrowsDelivery.

(** ** The caches never shrink *)







Section Upserts.
Context (client : Client).



End Upserts.



Section UpsertsPipeline.
Context (client : Client).
Context (extract_message_links : string → list LinkData) (rules : Rules).
Context (st0 : State).









End UpsertsPipeline.


(** ** Topics and replies *)

(** X9. How topic detection and reply detection fit together for a forum
    message that carries only a reply header.  When the header is flagged
    as a forum-topic reference and has no top-level id, the id replied to
    is taken as the topic and the message is not a genuine reply, so no
    reply context is fetched.  When the header is flagged and has a
    top-level id, that id is the topic and the message is a genuine reply
    exactly when it replies to something other than the topic.  When the
    header is not flagged, any header with a replied-to id makes the
    message a genuine reply, also when that same id has been taken as the
    topic. *)
Theorem topic_and_reply_detection (m : Message) (r : ReplyTo) :
  (hasattr (msg_topic_id m) = false → hasattr (msg_topic m) = false →
   msg_reply_to m = Some r →
   let topic := topic_of_message m true in
   (forum_topic r = true →
    getattr (top_msg_id r) = None → getattr (reply_to_top_id r) = None →
    truthy_int (getattr (reply_to_msg_id r)) = true →
    topic = getattr (reply_to_msg_id r) ∧ is_genuine_reply m topic = false)
   ∧ (∀ v, forum_topic r = true → v ≠ 0%Z →
           hasattr (top_msg_id r) = false →
           getattr (reply_to_top_id r) = Some v →
           hasattr (reply_to_msg_id r) = true →
           topic = Some v ∧
           (is_genuine_reply m topic = true ↔
            getattr (reply_to_msg_id r) ≠ Some v))
   ∧ (forum_topic r = false → hasattr (reply_to_msg_id r) = true →
      is_genuine_reply m topic = true))
  ∧ (let post := header_message 50 "hi" (topic_post_header 7) in
     topic_of_message post true = Some 7%Z ∧
     is_genuine_reply post (Some 7%Z) = false)
  ∧ (let reply := header_message 51 "hi" (topic_reply_header 7 50) in
     topic_of_message reply true = Some 7%Z ∧
     is_genuine_reply reply (Some 7%Z) = true).
Proof.
  split; [| split; by vm_compute].
  intros Htid Htopic Hreply. cbv zeta.
  unfold topic_of_message, is_genuine_reply. rewrite Htid, Htopic, Hreply.
  destruct (topic_from_reply_chain r) as (_ & Hflag & _ & _ & Hnone).
  split; [| split].
  - intros Hf Htop Hrtop Htruthy. rewrite (Hnone Htop Hrtop).
    split; [done |]. rewrite Hf, Htruthy.
    destruct (reply_to_msg_id r) as [|v]; [done |]. simpl.
    by rewrite bool_decide_eq_true_2.
  - intros v Hf Hv Htop Hrtop Hmsg. rewrite (Hflag v Hf Htop Hrtop).
    split; [done |]. rewrite Hf, Hmsg. simpl.
    rewrite (proj2 (Z.eqb_neq v 0) Hv). simpl.
    rewrite negb_true_iff, bool_decide_eq_false. done.
  - intros Hf Hmsg. by rewrite Hmsg, Hf.
Qed.

(** ** Outgoing content *)

Lemma truthy_str_append s t :
  truthy_str (s +:+ t) = truthy_str s || truthy_str t.
Proof. by destruct s. Qed.

Lemma truthy_text_Some o :
  truthy_text o = true → ∃ s, o = Some s ∧ truthy_str s = true.
Proof. destruct o as [s|]; [eauto | done]. Qed.

(** X10. The body of a formatted message is never empty.  It is the first
    non-empty one of the pre-extracted text, the message text, the text
    and the raw text; when none of them is there, the text of the
    message's dictionary if that is non-empty; and otherwise
    ["[Message with {type}]"] for a message with media, the type being the
    media class name without ["MessageMedia"], and ["[Empty message]"]
    for one without. *)
Theorem body_or_placeholder_nonempty (m : Message) :
  truthy_str (body_or_placeholder m) = true
  ∧ (∀ s, getattr (msg_extracted_text m) = Some s → truthy_str s = true →
          body_or_placeholder m = s)
  ∧ (∀ s, truthy_text (getattr (msg_extracted_text m)) = false →
          getattr (msg_message m) = Some s → truthy_str s = true →
          body_or_placeholder m = s)
  ∧ (∀ s, truthy_text (getattr (msg_extracted_text m)) = false →
          truthy_text (getattr (msg_message m)) = false →
          getattr (msg_text m) = Some s → truthy_str s = true →
          body_or_placeholder m = s)
  ∧ (∀ s, truthy_text (getattr (msg_extracted_text m)) = false →
          truthy_text (getattr (msg_message m)) = false →
          truthy_text (getattr (msg_text m)) = false →
          getattr (msg_raw_text m) = Some s → truthy_str s = true →
          body_or_placeholder m = s)
  ∧ (∀ s, has_text m = false →
          truthy_text (getattr (msg_extracted_text m)) = false →
          msg_to_dict_message m = Some (Some s) → truthy_str s = true →
          body_or_placeholder m = s)
  ∧ (has_text m = false →
     truthy_text (getattr (msg_extracted_text m)) = false →
     truthy_text (default None (msg_to_dict_message m)) = false →
     body_or_placeholder m =
       match msg_media m with
       | Some media =>
           "[Message with " +:+
           str_replace "MessageMedia" "" (media_class media) +:+ "]"
       | None => "[Empty message]"
       end).
Proof.
  unfold body_or_placeholder, found_text, has_text.
  split; [| split; [| split; [| split; [| split; [| split]]]]].
  - set (base := if truthy_text (getattr (msg_extracted_text m))
                 then _ else _).
    destruct (truthy_text base) eqn:E1.
    + rewrite E1. by apply truthy_text_Some in E1 as (s & -> & ?).
    + destruct (msg_to_dict_message m) as [from_dict|].
      * destruct (truthy_text from_dict) eqn:E2.
        -- by apply truthy_text_Some in E2 as (s & -> & ?).
        -- by destruct (msg_media m).
      * rewrite E1. by destruct (msg_media m).
  - intros s Hs Ht. rewrite Hs. simpl. by repeat (rewrite Ht; simpl).
  - intros s He Hs Ht. rewrite He, Hs. simpl. by repeat (rewrite Ht; simpl).
  - intros s He Hm Hs Ht. rewrite He, Hm, Hs. simpl.
    by repeat (rewrite Ht; simpl).
  - intros s He Hm Htxt Hs Ht. rewrite He, Hm, Htxt, Hs. simpl.
    by repeat (rewrite Ht; simpl).
  - intros s Hno He Hd Ht.
    apply orb_false_iff in Hno as [Hno Hraw].
    apply orb_false_iff in Hno as [Hmsg Htxt].
    rewrite He, Hmsg, Htxt, Hraw, Hd. simpl. by repeat (rewrite Ht; simpl).
  - intros Hno He Hd.
    apply orb_false_iff in Hno as [Hno Hraw].
    apply orb_false_iff in Hno as [Hmsg Htxt].
    rewrite He, Hmsg, Htxt, Hraw. simpl.
    destruct (msg_to_dict_message m) as [from_dict|]; simpl in *.
    + rewrite Hd. by destruct (msg_media m).
    + by destruct (msg_media m).
Qed.

(** X11. What [prepare_forwarding_content] attaches: the message's own
    media unless it is a web-page preview, and of the enrichment blocks'
    media, in order, exactly those that are not web-page previews. *)
Theorem prepare_forwarding_content_media (message : Message)
    (source_info : string) (include_source : bool) (contents : list Content) :
  let out := prepare_forwarding_content message source_info include_source
                                        contents in
  (∀ media, out.1.2 = Some media ↔
            msg_media message = Some media ∧ is_webpage media = false)
  ∧ Forall (λ media, is_webpage media = false) (out.2)
  ∧ out.2 `sublist_of` omap content_media contents
  ∧ (∀ media, media ∈ omap content_media contents →
              is_webpage media = false → media ∈ out.2).
Proof.
  cbv zeta. unfold prepare_forwarding_content. simpl.
  split; [| split; [| split]].
  - intros media. destruct (msg_media message) as [m|].
    + destruct (is_webpage m) eqn:E; split.
      * done.
      * intros [[= ->] H]. congruence.
      * by intros [= ->].
      * by intros [[= ->] _].
    + split; [done | by intros [? _]].
  - induction contents as [|c cs IH]; [constructor |]. simpl.
    destruct (content_media c) as [m|]; [| done].
    destruct (is_webpage m) eqn:E; [done |]. simpl. by constructor.
  - induction contents as [|c cs IH]; [done |]. simpl.
    destruct (content_media c) as [m|]; [| done].
    destruct (is_webpage m); simpl; [by apply sublist_cons | by apply sublist_skip].
  - intros media Hin Hw. induction contents as [|c cs IH].
    + by apply elem_of_nil in Hin.
    + simpl in *. destruct (content_media c) as [m|]; [| by apply IH].
      simpl in Hin. apply elem_of_cons in Hin as [->|Hin].
      * rewrite Hw. simpl. left.
      * destruct (is_webpage m); simpl; [by apply IH | right; by apply IH].
Qed.

Lemma prepare_forwarding_content_text_eq message source_info include_source
    contents :
  (prepare_forwarding_content message source_info include_source contents).1.1
  = let main := if include_source
                then source_info +:+ nl +:+ nl +:+ main_body message
                else main_body message in
    match contents with
    | [] => main
    | _ :: _ =>
        main +:+ nl +:+ nl +:+
        String.concat (nl +:+ nl) (content_text <$> contents)
    end.
Proof.
  unfold prepare_forwarding_content, main_body. simpl.
  destruct (truthy_str (extract_message_text message));
    [| destruct (msg_media message)];
    destruct include_source; by destruct contents.
Qed.

Lemma main_body_nonempty message : truthy_str (main_body message) = true.
Proof.
  unfold main_body.
  destruct (truthy_str (extract_message_text message)) eqn:E;
    [done | by destruct (msg_media message)].
Qed.

Lemma extract_message_text_has_text message :
  truthy_str (extract_message_text message) = has_text message.
Proof.
  unfold extract_message_text, has_text.
  destruct (truthy_text (getattr (msg_message message))) eqn:E1.
  { by apply truthy_text_Some in E1 as (s & -> & Hs). }
  destruct (truthy_text (getattr (msg_text message))) eqn:E2.
  { by apply truthy_text_Some in E2 as (s & -> & Hs). }
  destruct (truthy_text (getattr (msg_raw_text message))) eqn:E3; [| done].
  by apply truthy_text_Some in E3 as (s & -> & Hs).
Qed.

(** X12. What [prepare_forwarding_content] writes: the text is never
    empty; with the source included it starts with the source line and a
    blank line; enrichment blocks come last, each after a blank line, in
    order; and a message with text, sent without source and without
    enrichment, goes out as its text alone. *)
Theorem prepare_forwarding_content_text (message : Message)
    (source_info : string) (include_source : bool) (contents : list Content) :
  let text := (prepare_forwarding_content message source_info include_source
                                          contents).1.1 in
  truthy_str text = true
  ∧ (include_source = true →
     ∃ rest, text = source_info +:+ nl +:+ nl +:+ rest)
  ∧ (∀ block blocks, contents = block :: blocks →
       ∃ main, text = main +:+ nl +:+ nl +:+
                      String.concat (nl +:+ nl) (content_text <$> contents))
  ∧ (contents = [] → include_source = false → has_text message = true →
     text = extract_message_text message)
  ∧ (contents = [] →
     (prepare_forwarding_content message source_info true contents).1.1
     = source_info +:+ nl +:+ nl +:+
       (prepare_forwarding_content message source_info false contents).1.1).
Proof.
  cbv zeta. rewrite !prepare_forwarding_content_text_eq. cbv zeta.
  pose proof (main_body_nonempty message) as Hbody.
  split; [| split; [| split; [| split]]].
  - destruct include_source, contents; rewrite ?truthy_str_append;
      by rewrite ?Hbody, ?orb_true_r.
  - intros ->. destruct contents.
    + by eexists.
    + eexists. by rewrite !append_assoc.
  - intros block blocks ->. by eexists.
  - intros -> -> Ht. unfold main_body.
    by rewrite extract_message_text_has_text, Ht.
  - by intros ->.
Qed.

(** ** Native forwarding *)

Section NativeForward.
Context (client : Client).

Lemma forward_directly_run (chat_id : ChatId) (message : Message)
    (to_chat : string) (to_topic : option Z) (st : State) :
  let out := forward_directly client chat_id message to_chat to_topic st in
  out.1 = Ok (goes_through client to_chat st)
  ∧ no_forward_chats out.2 =
      (if refused client to_chat st
       then no_forward_chats st ∪ {[chat_id]} else no_forward_chats st)
  ∧ chat_entities out.2 = chat_entities st
  ∧ chat_topics out.2 = chat_topics st
  ∧ resolved_message_links out.2 = resolved_message_links st
  ∧ ∃ l, calls out.2 = calls st ++ l ∧
         Forall (λ c, is_native_call c = true) l ∧
         forward_targets l = option_list (int_of_string to_chat).
Proof.
  cbv zeta.
  unfold forward_directly, goes_through, refused, try_except, bind, py_int,
    request, modify, ret, raise.
  destruct (int_of_string to_chat) as [n|] eqn:En; simpl.
  - destruct (forward_reply client (clock st)) as [fwd|e] eqn:Ef; simpl.
    + destruct to_topic as [topic|], fwd as [first_msg|]; simpl;
        try (repeat split; try done;
             exists [ForwardMessages n message]; by repeat constructor).
      destruct (topic =? 0)%Z; simpl.
      * repeat split; try done.
        exists [ForwardMessages n message]; by repeat constructor.
      * destruct (edit_reply client (S (clock st))); simpl;
          (repeat split; try done;
           exists [ForwardMessages n message; EditMessage n first_msg topic];
           split; [by rewrite <- app_assoc | by repeat constructor]).
    + destruct (is_forward_restriction e); simpl;
        (repeat split; try done;
         exists [ForwardMessages n message]; by repeat constructor).
  - repeat split; try done. exists []. by rewrite app_nil_r.
Qed.


(** X13. The native forward of one target reports success exactly when
    the forward request itself went through, whatever became of the edit
    into the topic; it marks the source chat exactly when the request was
    refused with a restriction error, touches no other cache, and sends
    no message of its own. *)
Theorem forward_directly_outcome (chat_id : ChatId) (message : Message)
    (to_chat : string) (to_topic : option Z) (st : State) :
  let out := forward_directly client chat_id message to_chat to_topic st in
  out.1 = Ok (goes_through client to_chat st)
  ∧ no_forward_chats out.2 =
      (if refused client to_chat st
       then no_forward_chats st ∪ {[chat_id]} else no_forward_chats st)
  ∧ chat_entities out.2 = chat_entities st
  ∧ chat_topics out.2 = chat_topics st
  ∧ resolved_message_links out.2 = resolved_message_links st
  ∧ ∃ l, calls out.2 = calls st ++ l ∧
         Forall (λ c, is_native_call c = true) l ∧
         forward_targets l = option_list (int_of_string to_chat).
Proof. apply forward_directly_run. Qed.

Lemma same_caches_refl st : same_caches st st.
Proof. done. Qed.

Lemma forward_message_cons event contents topic_id can_forward_directly
    target targets st :
  (forward_message client event contents topic_id can_forward_directly
                   (target :: targets) st).2
  = (forward_message client event contents topic_id can_forward_directly
       targets
       (try_except
          (forward_to_target client (ev_chat_id event) (ev_message event)
             contents topic_id can_forward_directly target)
          (λ _, ret tt) st).2).2.
Proof.
  unfold forward_message at 1. simpl. unfold bind at 1.
  by destruct (forward_message_body_returns client event contents topic_id
                 can_forward_directly target st) as ([] & s1 & ->).
Qed.

Lemma forward_to_target_native chat_id message topic_id target st s1 :
  forward_directly client chat_id message (to_chat target) (to_topic target) st
    = (Ok true, s1) →
  try_except
    (forward_to_target client chat_id message [] topic_id true target)
    (λ _, ret tt) st = (Ok tt, s1).
Proof.
  intros Hfwd. unfold forward_to_target, try_except, bind. simpl.
  by rewrite Hfwd.
Qed.

Lemma forward_message_native event topic_id targets st :
  Forall (λ t, is_Some (int_of_string (to_chat t))) targets →
  (∀ t, ∃ m, forward_reply client t = Ok m) →
  let st' := (forward_message client event [] topic_id true targets st).2 in
  same_caches st st'
  ∧ ∃ l, calls st' = calls st ++ l
         ∧ Forall (λ c, is_native_call c = true) l
         ∧ Some <$> forward_targets l = (int_of_string ∘ to_chat) <$> targets.
Proof.
  intros Hnum Hok. cbv zeta. revert st.
  induction Hnum as [|target targets [n Hn] Hnum IH]; intros st.
  - split; [done |]. exists []. by rewrite app_nil_r.
  - rewrite forward_message_cons.
    pose proof (forward_directly_run (ev_chat_id event) (ev_message event)
                  (to_chat target) (to_topic target) st) as Hrun.
    cbv zeta in Hrun. unfold goes_through, refused in Hrun.
    rewrite Hn in Hrun. destruct (Hok (clock st)) as [m Hm].
    rewrite Hm in Hrun.
    destruct (forward_directly _ _ _ _ _ st) as [r s1] eqn:Hfwd.
    simpl in Hrun.
    destruct Hrun as (-> & H1 & H2 & H3 & H4 & l1 & Hl1 & Hn1 & Hf1).
    rewrite (forward_to_target_native _ _ _ _ _ _ Hfwd). simpl.
    assert (same_caches st s1) as Hc1 by done.
    destruct (IH s1) as [Hc2 (l2 & Hl2 & Hn2 & Hf2)].
    split.
    + destruct Hc1 as (? & ? & ? & ?), Hc2 as (? & ? & ? & ?).
      repeat split; congruence.
    + exists (l1 ++ l2). split; [| split].
      * by rewrite Hl2, Hl1, <- app_assoc.
      * by apply Forall_app.
      * unfold forward_targets in *. rewrite omap_app, fmap_app, Hf1, Hf2.
        simpl. by rewrite Hn.
Qed.

(** X14. When every target names its chat by a number and the client
    answers the forward requests, a message without enrichment is
    delivered by native forwards alone: one forward per target, in the
    order of the decision, no reconstructed message, no lookup of a chat
    or topic name, and no cache touched. *)
Theorem native_forward_only (event : Event) (topic_id : option Z)
    (targets : list Forward) (st : State)
    (Hnum : Forall (λ t, is_Some (int_of_string (to_chat t))) targets)
    (Hok : ∀ t, ∃ m, forward_reply client t = Ok m) :
  let st' := (forward_message client event [] topic_id true targets st).2 in
  same_caches st st'
  ∧ ∃ l, calls st' = calls st ++ l
         ∧ Forall (λ c, is_native_call c = true) l
         ∧ Some <$> forward_targets l = (int_of_string ∘ to_chat) <$> targets.
Proof. by apply forward_message_native. Qed.

(** X15. A message that carries enrichment, or that comes from a chat
    that may not be forwarded from, is never forwarded natively: every
    target of the decision is sent the reconstructed text. *)
Theorem enriched_message_is_rebuilt (event : Event) (contents : list Content)
    (topic_id : option Z) (can_forward_directly : bool)
    (targets : list Forward) (st : State)
    (Henriched : contents ≠ [] ∨ can_forward_directly = false) :
  let st' := (forward_message client event contents topic_id
                              can_forward_directly targets st).2 in
  no_native_forward st st'
  ∧ ∀ target, target ∈ targets → sent_as_text target st st'.
Proof.
  cbv zeta.
  assert (forward_message client event contents topic_id can_forward_directly
                          targets st
          = forward_message client event contents topic_id false targets st)
    as ->.
  { unfold forward_message, forward_to_target.
    replace (can_forward_directly && bool_decide (contents = [])) with false;
      [done |].
    destruct Henriched as [Hc | ->]; [| done].
    by rewrite bool_decide_false, andb_false_r. }
  split.
  - apply (keeps_forward_message_text client _ (no_native_forward_stable st)).
    exists []. by rewrite app_nil_r.
  - intros target. apply forward_message_text_sends.
Qed.

End NativeForward.

(** Two numeric targets served by a client that answers every forward. *)
Lemma native_forward_only_witness :
  same_caches initial_state
    (forward_message (quiet_client None) some_event [] None true
       [plain_target "999"; plain_target "-1001"] initial_state).2
  ∧ ∃ l, calls (forward_message (quiet_client None) some_event [] None true
                  [plain_target "999"; plain_target "-1001"]
                  initial_state).2
         = calls initial_state ++ l
         ∧ Forall (λ c, is_native_call c = true) l
         ∧ Some <$> forward_targets l
           = (int_of_string ∘ to_chat)
               <$> [plain_target "999"; plain_target "-1001"].
Proof.
  apply (native_forward_only (quiet_client None) some_event None
           [plain_target "999"; plain_target "-1001"] initial_state).
  - repeat constructor; by eexists.
  - intros t. by eexists.
Defined.

(** A message with one enrichment block, from a chat that may be
    forwarded from. *)
Lemma enriched_message_is_rebuilt_witness :
  no_native_forward initial_state
    (forward_message (quiet_client None) some_event
       [mkContent "quoted" None None] None true [plain_target "999"]
       initial_state).2
  ∧ ∀ target, target ∈ [plain_target "999"] →
      sent_as_text target initial_state
        (forward_message (quiet_client None) some_event
           [mkContent "quoted" None None] None true [plain_target "999"]
           initial_state).2.
Proof.
  apply (enriched_message_is_rebuilt (quiet_client None) some_event
           [mkContent "quoted" None None] None true [plain_target "999"]
           initial_state).
  by left.
Defined.

(** ** The cache of resolved links *)

Lemma bind_Ok_inv {A B} (m : M A) (k : A → M B) st b s' :
  bind m k st = (Ok b, s') →
  ∃ a s1, m st = (Ok a, s1) ∧ k a s1 = (Ok b, s').
Proof.
  unfold bind. destruct (m st) as [[a|e] s1]; [| done]. by exists a, s1.
Qed.

Lemma fetch_linked_message_found client link_data st m :
  (fetch_linked_message client link_data st).1 = Ok (Some m) →
  resolved_message_links (fetch_linked_message client link_data st).2
    !! cache_key link_data = Some m.
Proof.
  destruct (fetch_linked_message client link_data st) as [r s'] eqn:Hrun.
  simpl. intros ->.
  unfold fetch_linked_message, bind at 1, get_state in Hrun.
  destruct (resolved_message_links st !! cache_key link_data) as [c|] eqn:E.
  { by injection Hrun as <- <-. }
  unfold try_except in Hrun.
  match type of Hrun with context [match ?body st with _ => _ end] =>
    destruct (body st) as [[r|e] s1] eqn:Hb
  end; [| done].
  injection Hrun as -> ->.
  apply bind_Ok_inv in Hb as ([chat|] & s1 & _ & Hb); [| done].
  apply bind_Ok_inv in Hb as (m1 & s2 & _ & Hb).
  apply bind_Ok_inv in Hb as (m2 & s3 & _ & Hb).
  apply bind_Ok_inv in Hb as ([m3|] & s4 & _ & Hb); [| done].
  unfold bind, modify, ret in Hb. injection Hb as <- <-.
  simpl. by rewrite lookup_insert_eq.
Qed.

(** X16. Resolved links are memoized by cache key: once a link has been
    resolved to a message, the message stands in the cache under the
    link's key, and in every later state in which the caches have only
    grown any link with that key, whatever topic it names and whatever the
    client would answer now, resolves to the same message without a
    request. *)
Theorem fetch_linked_message_memoized (client client' : Client)
    (link_data link_data' : LinkData) (st : State) (m : Message)
    (Hfound : (fetch_linked_message client link_data st).1 = Ok (Some m))
    (Hkey : cache_key link_data' = cache_key link_data) :
  let st' := (fetch_linked_message client link_data st).2 in
  resolved_message_links st' !! cache_key link_data = Some m
  ∧ ∀ st'', grows st' st'' →
      fetch_linked_message client' link_data' st'' = (Ok (Some m), st'').
Proof.
  cbv zeta.
  pose proof (fetch_linked_message_found client link_data st m Hfound) as Hc.
  split; [done |].
  intros st'' (_ & Hsub & _).
  unfold fetch_linked_message, bind at 1, get_state.
  rewrite Hkey.
  by rewrite (lookup_weaken _ _ _ _ Hc Hsub).
Qed.

(** A link resolved once is served from the cache, also when it is
    written with a topic id, by a client that would now refuse. *)
Lemma fetch_linked_message_memoized_witness :
  fetch_linked_message refusing_client
    {| full_match := "https://t.me/c/555/7/10"; message_id := 10;
       link_chat_id := Some "555"; link_username := None;
       link_topic_id := Some 7%Z |}
    (fetch_linked_message
       (recovering_client some_channel (text_message 10 "hello")) some_link
       (log_call (GetSender (text_message 1 "see")) initial_state)).2
  = (Ok (Some (set_extracted_text (text_message 10 "hello") "hello")),
     (fetch_linked_message
        (recovering_client some_channel (text_message 10 "hello")) some_link
        (log_call (GetSender (text_message 1 "see")) initial_state)).2).
Proof.
  refine (proj2
    (fetch_linked_message_memoized
       (recovering_client some_channel (text_message 10 "hello"))
       refusing_client some_link
       {| full_match := "https://t.me/c/555/7/10"; message_id := 10;
          link_chat_id := Some "555"; link_username := None;
          link_topic_id := Some 7%Z |}
       (log_call (GetSender (text_message 1 "see")) initial_state)
       (set_extracted_text (text_message 10 "hello") "hello") _ _) _ _).
  - vm_compute. reflexivity.
  - vm_compute. reflexivity.
  - apply grows_refl.
Defined.

(** ** The handler's decision *)

Lemma should_forward_sublist rules c topic user :
  should_forward rules c topic user
    `sublist_of` should_forward rules c topic None.
Proof.
  destruct (find_matching_rules rules (normalize_chat_id c)) as [entry|] eqn:E.
  - rewrite !(should_forward_matched _ _ _ _ _ E).
    apply sublist_app; apply passing_sublist.
  - unfold should_forward. by rewrite E.
Qed.

Section Decision.
Context (client : Client).
Context (extract_message_links : string → list LinkData) (rules : Rules).

(** The handler up to its decision: two requests, then the decision. *)
Lemma handle_new_message_run event st :
  let s2 := log_call (GetEntity (ev_chat_id event))
              (log_call (GetSender (ev_message (prepared event))) st) in
  ∃ topic,
    handle_new_message client extract_message_links rules event st =
      match decision_for client rules event st with
      | [] => (Ok tt, s2)
      | _ :: _ =>
          (let! can_forward := can_forward_from_chat client (ev_chat_id event) in
           process_and_forward_message client extract_message_links
             (prepared event) (decision_for client rules event st) topic
             can_forward) s2
      end.
Proof.
  cbv zeta.
  unfold handle_new_message, decision_for, prepared, sender_id_of,
    extract_topic_id.
  unfold bind at 1 2. unfold try_except, bind, request, ret, raise. simpl.
  destruct (get_sender_reply client (clock st)) as [[sender|]|e]; simpl;
    [destruct (sender_id sender) as [|v]; simpl | |];
    (destruct (get_entity_reply client (S (clock st))) as [entity|e'];
     simpl; [destruct (ent_forum entity); simpl |]);
    eexists;
    match goal with
    | |- context [should_forward ?r ?c ?t ?u] =>
        destruct (should_forward r c t u); reflexivity
    end.
Qed.

(** X17. An event no rule matches is dropped after the two lookups the
    decision needs: the handler returns normally, has asked for the sender
    and for the chat's entity and for nothing else, and has touched no
    cache. *)
Theorem unmatched_event_is_dropped (event : Event) (st : State)
    (Hnone : decision_for client rules event st = []) :
  let out := handle_new_message client extract_message_links rules event st in
  out.1 = Ok tt
  ∧ calls out.2 = calls st ++ [GetSender (ev_message (prepared event));
                               GetEntity (ev_chat_id event)]
  ∧ same_caches st out.2.
Proof.
  cbv zeta. destruct (handle_new_message_run event st) as [topic ->].
  rewrite Hnone. simpl. split; [done |]. split; [| done].
  by rewrite <- app_assoc.
Qed.

(** X18. When the sender cannot be identified the user filter lets the
    message through: the handler decides as for an unknown sender, on the
    topic it finds next, and that decision contains the decision for any
    sender. *)
Theorem unknown_sender_bypasses_filter (event : Event) (st : State)
    (Hunknown : sender_unknown (get_sender_reply client (clock st))) :
  ∃ topic,
    (extract_topic_id client (prepared event)
       (log_call (GetSender (ev_message (prepared event))) st)).1 = Ok topic
    ∧ decision_for client rules event st
      = should_forward rules (ev_chat_id event) topic None
    ∧ ∀ user, should_forward rules (ev_chat_id event) topic user
                `sublist_of` decision_for client rules event st.
Proof.
  assert (sender_id_of client (ev_message (prepared event)) st
          = (Ok None, log_call (GetSender (ev_message (prepared event))) st))
    as Hs.
  { unfold sender_id_of, try_except, bind, request, ret, raise.
    unfold sender_unknown in Hunknown.
    destruct (get_sender_reply client (clock st)) as [[sender|]|e]; simpl;
      [| done | done].
    destruct (sender_id sender) as [|v]; simpl; [done |].
    simpl in Hunknown. by rewrite Hunknown. }
  destruct (extract_topic_id_returns client (prepared event)
              (log_call (GetSender (ev_message (prepared event))) st))
    as (topic & s2 & Ht).
  exists topic. rewrite Ht. split; [done |].
  assert (decision_for client rules event st
          = should_forward rules (ev_chat_id event) topic None) as ->.
  { unfold decision_for. by rewrite Hs, Ht. }
  split; [done |]. intros user. apply should_forward_sublist.
Qed.

End Decision.

(** With no rules at all every event is dropped. *)
Lemma unmatched_event_is_dropped_witness :
  (handle_new_message (quiet_client None) (λ _, []) ∅ some_event
                      initial_state).1 = Ok tt
  ∧ calls (handle_new_message (quiet_client None) (λ _, []) ∅ some_event
                              initial_state).2
    = calls initial_state ++ [GetSender (ev_message (prepared some_event));
                              GetEntity (ev_chat_id some_event)]
  ∧ same_caches initial_state
      (handle_new_message (quiet_client None) (λ _, []) ∅ some_event
                          initial_state).2.
Proof.
  apply (unmatched_event_is_dropped (quiet_client None) (λ _, []) ∅
           some_event initial_state).
  vm_compute. reflexivity.
Defined.

(** A sender lookup that fails, under the scenario rules. *)
Lemma unknown_sender_bypasses_filter_witness :
  ∃ topic,
    (extract_topic_id anonymous_client (prepared some_event)
       (log_call (GetSender (ev_message (prepared some_event)))
                 initial_state)).1 = Ok topic
    ∧ decision_for anonymous_client scenario_rules some_event initial_state
      = should_forward scenario_rules (ev_chat_id some_event) topic None
    ∧ ∀ user, should_forward scenario_rules (ev_chat_id some_event) topic user
                `sublist_of`
              decision_for anonymous_client scenario_rules some_event
                           initial_state.
Proof.
  apply (unknown_sender_bypasses_filter anonymous_client scenario_rules
           some_event initial_state).
  exact I.
Defined.

(** ** The reconstructed message *)

Section Reconstruction.
Context (client : Client).

(** The text-based forwarding up to its main send: the chat title, then
    the topic name when there is a topic id. *)
Lemma forward_as_text_run chat_id message contents topic_id to_chat to_topic
    include_source st :
  ∃ title s1 suffix s2,
    get_chat_title client chat_id st = (Ok title, s1)
    ∧ log_extends st s2
    ∧ (truthy_int topic_id = false → suffix = "")
    ∧ (truthy_int topic_id = true →
       ∃ name,
         (get_topic_name client chat_id topic_id s1).1 = Ok (Some name)
         ∧ suffix = if truthy_str name then " | " +:+ name else "")
    ∧ forward_as_text client chat_id message contents topic_id to_chat
                      to_topic include_source st
      = (let '(text, sendable_media, additional_media) :=
           prepare_forwarding_content message
             (("📨 Forwarded from: " +:+ title) +:+ suffix)
             include_source contents in
         do! request (SendMessage to_chat text to_topic (msg_entities message)
                                  sendable_media)
                     (send_reply client) in
         for_each additional_media
           (λ media_item,
              try_except
                (request (SendMessage to_chat
                            "📎 Additional media from referenced message"
                            to_topic None (Some media_item))
                         (send_reply client))
                (λ _, ret tt))) s2.
Proof.
  destruct (returns_keeps (log_extends st) (get_chat_title client chat_id) st)
    as (title & s1 & Ht & H1);
    [apply get_chat_title_returns
    | by apply keeps_get_chat_title, log_extends_stable
    | apply log_extends_refl |].
  exists title, s1. unfold forward_as_text. unfold bind at 1. rewrite Ht.
  unfold bind at 1.
  match goal with
  | |- context [match ?src s1 with _ => _ end] =>
      assert (∃ suffix s2,
                src s1 = (Ok (("📨 Forwarded from: " +:+ title) +:+ suffix), s2)
                ∧ log_extends st s2
                ∧ (truthy_int topic_id = false → suffix = "")
                ∧ (truthy_int topic_id = true →
                   ∃ name,
                     (get_topic_name client chat_id topic_id s1).1
                       = Ok (Some name)
                     ∧ suffix = if truthy_str name
                                then " | " +:+ name else ""))
        as (suffix & s2 & -> & H2 & Hnone & Hsome)
  end.
  { destruct (truthy_int topic_id) eqn:Etopic.
    - destruct topic_id as [t|]; [| done].
      assert (t ≠ 0%Z) as Hne.
      { intros ->. by simpl in Etopic. }
      destruct (get_topic_name_truthy client chat_id t s1 Hne)
        as (name & s2 & Hn).
      pose proof (keeps_get_topic_name client (log_extends st)
                    (log_extends_stable st) chat_id (Some t) s1 H1) as H2.
      unfold bind. rewrite Hn in *. simpl in H2. simpl truthy_text.
      exists (if truthy_str name then " | " +:+ name else ""), s2.
      split.
      + change (truthy_text (Some name)) with (truthy_str name).
        destruct (truthy_str name); [done |]. by rewrite append_empty_r.
      + split; [done |]. split; [done |]. intros _. by exists name.
    - exists "", s1. rewrite append_empty_r.
      split; [done |]. split; [done |]. split; [done | done]. }
  exists suffix, s2. split; [done |]. split; [done |].
  split; [done |]. split; [done |].
  by destruct (prepare_forwarding_content _ _ _ _) as [[text media] additional].
Qed.

(** X19. The reconstruction of a message sends the target one main
    message that carries the prepared text, the formatting entities of the
    original and its media.  The attribution line it is prepared with is
    the forwarded-from mark followed by the chat title and nothing else
    when the topic id is none or 0; when there is a topic id, the name
    [get_topic_name] gives for it follows after a bar, unless that name is
    empty. *)
Theorem reconstruction_carries_content (chat_id : ChatId) (message : Message)
    (contents : list Content) (topic_id : option Z) (to_chat : string)
    (to_topic : option Z) (include_source : bool) (st : State) :
  ∃ title suffix,
    (get_chat_title client chat_id st).1 = Ok title
    ∧ (truthy_int topic_id = false → suffix = "")
    ∧ (truthy_int topic_id = true →
       ∃ name,
         (get_topic_name client chat_id topic_id
            (get_chat_title client chat_id st).2).1 = Ok (Some name)
         ∧ suffix = if truthy_str name then " | " +:+ name else "")
    ∧ logged_since
        (λ c, c = rebuilt_call message contents to_chat to_topic include_source
                    (("📨 Forwarded from: " +:+ title) +:+ suffix))
        st
        (forward_as_text client chat_id message contents topic_id to_chat
                         to_topic include_source st).2.
Proof.
  destruct (forward_as_text_run chat_id message contents topic_id to_chat
              to_topic include_source st)
    as (title & s1 & suffix & s2 & Ht & H2 & Hnone & Hsome & ->).
  exists title, suffix. rewrite Ht. split; [done |]. split; [done |].
  split; [done |].
  unfold rebuilt_call.
  destruct (prepare_forwarding_content _ _ _ _) as [[text media] additional].
  match goal with
  | |- logged_since ?P _ (bind (request ?c ?reply) ?k s2).2 =>
      change (logged_since P st
                (bind (answer (reply (clock s2))) k (log_call c s2)).2);
      assert (keeps (logged_since P st)
                (bind (answer (reply (clock s2))) k)) as Hk
  end.
  { match goal with |- keeps (logged_since ?P _) _ =>
      pose proof (logged_since_stable P st) as HI
    end.
    apply keeps_bind; [apply keeps_answer | intros _].
    keeps_auto HI. }
  apply Hk. eapply logged_since_extends; [exact H2 |].
  by apply logged_since_now.
Qed.

End Reconstruction.

(** ** A plain message from a chat that allows forwarding *)

Lemma native_calls_send_nothing l :
  Forall (λ c, is_native_call c = true) l → send_targets l = [].
Proof.
  induction 1 as [|c l Hc _ IH]; [done |].
  by destruct c.
Qed.

Section PlainMessage.
Context (client : Client).
Context (extract_message_links : string → list LinkData) (rules : Rules).

Lemma can_forward_true_run chat_id st :
  (can_forward_from_chat client chat_id st).1 = Ok true →
  let st' := (can_forward_from_chat client chat_id st).2 in
  chat_topics st' = chat_topics st
  ∧ no_forward_chats st' = no_forward_chats st
  ∧ resolved_message_links st' = resolved_message_links st
  ∧ (calls st' = calls st ∨ ∃ who, calls st' = calls st ++ [GetEntity who]).
Proof.
  cbv zeta. destruct (decide (chat_id ∈ no_forward_chats st)) as [Hin|Hout].
  { by rewrite can_forward_denied. }
  rewrite can_forward_allowed by done.
  pose proof (get_entity_frame client chat_id st) as (Htop & Hnf & Hres).
  pose proof (get_entity_one_request client chat_id st) as Hreq.
  destruct (get_entity client chat_id st) as [[[entity|]|e] s1]; try done.
  by destruct (ent_is_channel entity && ent_noforwards entity).
Qed.

Lemma process_plain_message event forwarding_info topic_id can_forward text st :
  msg_reply_to (ev_message event) = None →
  msg_text (ev_message event) = Present text →
  extract_message_links (fmt_opt_str text) = [] →
  process_and_forward_message client extract_message_links event
    forwarding_info topic_id can_forward st
  = forward_message client event [] topic_id can_forward forwarding_info st.
Proof.
  intros Hreply Htext Hlinks.
  unfold process_and_forward_message, is_genuine_reply.
  rewrite Hreply, Htext, Hlinks. by destruct (truthy_text text).
Qed.

(** X20. A plain message, without reply header and without links in its
    text, that arrives from a chat which may be forwarded from is
    delivered by native forwards alone when the targets are numeric and
    the client answers: the handler returns normally, forwards once to
    every target of its decision, in order, sends no reconstructed
    message, and leaves the topic cache, the link cache and the set of
    marked chats as they were. *)
Theorem plain_message_forwarded_natively (event : Event) (st : State)
    (text : option string)
    (Hreply : msg_reply_to (ev_message event) = None)
    (Htext : msg_text (ev_message event) = Present text)
    (Hlinks : extract_message_links (fmt_opt_str text) = [])
    (Hnum : Forall (λ t, is_Some (int_of_string (to_chat t)))
                   (decision_for client rules event st))
    (Hok : ∀ t, ∃ m, forward_reply client t = Ok m)
    (Hcan : (can_forward_from_chat client (ev_chat_id event)
               (log_call (GetEntity (ev_chat_id event))
                  (log_call (GetSender (ev_message (prepared event))) st))).1
            = Ok true) :
  let out := handle_new_message client extract_message_links rules event st in
  out.1 = Ok tt
  ∧ chat_topics out.2 = chat_topics st
  ∧ no_forward_chats out.2 = no_forward_chats st
  ∧ resolved_message_links out.2 = resolved_message_links st
  ∧ ∃ l, calls out.2 = calls st ++ l
         ∧ send_targets l = []
         ∧ Some <$> forward_targets l
           = (int_of_string ∘ to_chat) <$> decision_for client rules event st.
Proof.
  cbv zeta. destruct (handle_new_message_run client extract_message_links
                        rules event st) as [topic ->].
  set (s2 := log_call (GetEntity (ev_chat_id event))
               (log_call (GetSender (ev_message (prepared event))) st)) in *.
  destruct (decision_for client rules event st) as [|target targets] eqn:Hd.
  { simpl. repeat split; try done. eexists. split; [by rewrite <- app_assoc |].
    done. }
  pose proof (can_forward_true_run (ev_chat_id event) s2 Hcan) as Hrun.
  cbv zeta in Hrun.
  destruct (can_forward_from_chat client (ev_chat_id event) s2)
    as [r s3] eqn:Hcf.
  simpl in Hcan, Hrun. subst r.
  destruct Hrun as (Htop & Hnf & Hres & Hcalls).
  assert ((let! can_forward := can_forward_from_chat client (ev_chat_id event) in
           process_and_forward_message client extract_message_links
             (prepared event) (target :: targets) topic can_forward) s2
          = forward_message client (prepared event) [] topic true
              (target :: targets) s3) as ->.
  { unfold bind at 1. rewrite Hcf.
    by apply (process_plain_message (prepared event) _ _ _ text). }
  destruct (forward_message_app client (prepared event) [] topic true
              (target :: targets) [] s3) as [_ Hret].
  destruct (forward_message_native client (prepared event) topic
              (target :: targets) s3 Hnum Hok)
    as [(Hc1 & Hc2 & Hc3 & Hc4) (l3 & Hl3 & Hn3 & Hf3)].
  split; [done |].
  split; [by rewrite Hc2, Htop |].
  split; [by rewrite Hc3, Hnf |].
  split; [by rewrite Hc4, Hres |].
  assert (∃ l2, calls s3 = calls st ++ l2 ∧ send_targets l2 = []
                ∧ forward_targets l2 = []) as (l2 & Hl2 & Hs2 & Hf2).
  { destruct Hcalls as [-> | [who ->]]; eexists;
      (split; [subst s2; simpl; by rewrite <- ?app_assoc | done]). }
  exists (l2 ++ l3). split; [by rewrite Hl3, Hl2, <- app_assoc |].
  unfold send_targets, forward_targets in *. rewrite !omap_app.
  split.
  - rewrite Hs2. simpl. by apply native_calls_send_nothing.
  - by rewrite Hf2.
Qed.

End PlainMessage.

(** The scenario rules, a forum that allows forwarding, a client that
    answers. *)
Lemma plain_message_forwarded_natively_witness :
  (handle_new_message
     (constant_client (Ok some_forum) (Ok None) (Ok None) (Ok tt))
     (λ _, []) scenario_rules some_event initial_state).1 = Ok tt.
Proof.
  refine (proj1
    (plain_message_forwarded_natively
       (constant_client (Ok some_forum) (Ok None) (Ok None) (Ok tt))
       (λ _, []) scenario_rules some_event initial_state (Some "hello")
       _ _ _ _ _ _)).
  - reflexivity.
  - reflexivity.
  - reflexivity.
  - vm_compute. repeat constructor; by eexists.
  - intros t. by eexists.
  - vm_compute. reflexivity.
Defined.

(** ** The block for the message replied to *)

Section RepliedMessage.
Context (client : Client).

(** X21. When [process_replied_message] gives a block, the message has a
    reply header with a message id, the block is built from the message
    the client found under that id: the reply mark, the sender's display
    name in bold (["Unknown User"] when the sender lookup fails), the
    replied message's text or placeholder, its media and its entities;
    and exactly two requests were made, for the message and for its
    sender. *)
Theorem replied_block (message : Message) (chat_id : ChatId) (st : State)
    (c : Content)
    (Hblock : (process_replied_message client message chat_id st).1
              = Ok (Some c)) :
  ∃ reply_to replied,
    msg_reply_to message = Some reply_to
    ∧ hasattr (reply_to_msg_id reply_to) = true
    ∧ get_messages_reply client (clock st) = Ok (Some replied)
    ∧ c = {| content_text :=
               reply_prefix +:+ "**" +:+
               display_of (get_sender_reply client (S (clock st))) +:+
               ":** " +:+ body_or_placeholder replied;
             content_media := msg_media replied;
             content_entities := msg_entities replied |}
    ∧ calls (process_replied_message client message chat_id st).2
      = calls st ++ [GetMessages (inr chat_id)
                       (getattr (reply_to_msg_id reply_to)) None;
                     GetSender replied].
Proof.
  destruct (process_replied_message client message chat_id st) as [r s']
    eqn:Hrun.
  simpl in *. subst r.
  unfold process_replied_message, format_message_for_forwarding, try_except,
    bind, request, ret, raise in Hrun.
  destruct (msg_reply_to message) as [reply_to|]; [| done].
  destruct (reply_to_msg_id reply_to) as [|v] eqn:Hid; [done |].
  simpl in Hrun.
  destruct (get_messages_reply client (clock st)) as [[replied|]|e];
    [| done | done].
  simpl in Hrun.
  exists reply_to, replied. rewrite Hid.
  destruct (get_sender_reply client (S (clock st))) as [[sender|]|e];
    simpl in Hrun; injection Hrun as <- <-; simpl;
    by rewrite <- app_assoc.
Qed.

End RepliedMessage.

(** A reply inside a topic, the replied message found, its sender not. *)
Lemma replied_block_witness :
  ∃ reply_to replied,
    msg_reply_to (header_message 11 "re" (topic_reply_header 5 10))
      = Some reply_to
    ∧ hasattr (reply_to_msg_id reply_to) = true
    ∧ get_messages_reply
        (recovering_client some_channel (text_message 10 "hello"))
        (clock initial_state) = Ok (Some replied)
    ∧ mkContent (reply_prefix +:+ "**Unknown User:** hello") None None
      = {| content_text :=
             reply_prefix +:+ "**" +:+
             display_of
               (get_sender_reply
                  (recovering_client some_channel (text_message 10 "hello"))
                  (S (clock initial_state))) +:+
             ":** " +:+ body_or_placeholder replied;
           content_media := msg_media replied;
           content_entities := msg_entities replied |}
    ∧ calls (process_replied_message
               (recovering_client some_channel (text_message 10 "hello"))
               (header_message 11 "re" (topic_reply_header 5 10))
               (IntId (-1001234)) initial_state).2
      = calls initial_state ++
        [GetMessages (inr (IntId (-1001234)))
           (getattr (reply_to_msg_id reply_to)) None;
         GetSender replied].
Proof.
  apply (replied_block
           (recovering_client some_channel (text_message 10 "hello"))
           (header_message 11 "re" (topic_reply_header 5 10))
           (IntId (-1001234)) initial_state
           (mkContent (reply_prefix +:+ "**Unknown User:** hello") None None)).
  vm_compute. reflexivity.
Defined.

(** ** The blocks for linked messages *)

Section LinkedBlocks.
Context (client : Client).




End LinkedBlocks.

(** ** Messages that are media only *)

Lemma startswith_append p rest : startswith p (p +:+ rest) = true.
Proof. apply startswith_correct. by exists rest. Qed.

Lemma replace_from_absent old new s :
  old ≠ "" → occurs old s = false → replace_from old new 0 s = s.
Proof.
  intros Hold. induction s as [|a s IH]; intros Hs.
  - by destruct old.
  - simpl in Hs. apply orb_false_elim in Hs as [Hhere Hlater].
    simpl replace_from. unfold startswith in *. simpl in Hhere.
    rewrite Hhere. by rewrite IH.
Qed.

Lemma replace_from_skip old new p rest :
  replace_from old new (String.length p) (p +:+ rest)
  = replace_from old new 0 rest.
Proof.
  induction p as [|a p IH]; [done |].
  rewrite append_cons. simpl. apply IH.
Qed.

Lemma str_replace_prefix old new rest :
  old ≠ "" → occurs old rest = false →
  str_replace old new (old +:+ rest) = new +:+ rest.
Proof.
  intros Hold Hrest. unfold str_replace.
  destruct old as [|a old']; [done |].
  rewrite append_cons.
  pose proof (startswith_append (String a old') rest) as Hp.
  rewrite append_cons in Hp.
  cbn [replace_from]. rewrite Hp.
  by rewrite replace_from_skip, replace_from_absent.
Qed.

(** X23. A message without text whose media is of a class named
    [MessageMedia] followed by a kind goes out, to a target without
    source attribution, as the placeholder naming that kind, with the
    media attached unless it is a web page preview. *)
Theorem media_only_message (message : Message) (media : Media)
    (kind source_info : string)
    (Hmedia : msg_media message = Some media)
    (Hclass : media_class media = "MessageMedia" +:+ kind)
    (Hkind : occurs "MessageMedia" kind = false)
    (Hempty : has_text message = false) :
  prepare_forwarding_content message source_info false []
  = ("[Message with " +:+ kind +:+ "]",
     if is_webpage media then None else Some media,
     []).
Proof.
  pose proof (extract_message_text_has_text message) as Htext.
  rewrite Hempty in Htext.
  unfold prepare_forwarding_content. simpl. rewrite Htext, Hmedia.
  unfold get_media_type_name. rewrite Hclass.
  by rewrite str_replace_prefix.
Qed.

(** A photo without caption. *)
Lemma media_only_message_witness :
  prepare_forwarding_content photo_message "📨 Forwarded from: News" false []
  = ("[Message with Photo]", Some (mkMedia "MessageMediaPhoto"), []).
Proof.
  apply (media_only_message photo_message (mkMedia "MessageMediaPhoto")
           "Photo" "📨 Forwarded from: News");
    reflexivity.
Defined.
